(** * Scoring engine of the scientific-productivity index ([core.py])

    A shallow embedding of [normalize], [classify_level] and [evaluate]
    together with the pydantic records of [models.py] they work on, and
    of the callers in [main.py].

    Modelling conventions.
    - The code is embedded twice.  In the first embedding a Python
      [float] is an exact rational number ([Qc], canonical fractions, so
      that equal numbers are equal terms); it carries the statements on
      structure, order and error behaviour, which do not depend on how a
      double rounds.  In the second (module [F64]) a [float] is an IEEE 754
      binary64 number of the Standard Library's [SpecFloat], with rounding
      to nearest, overflow to infinity and NaN; it carries the statements
      whose truth depends on the arithmetic of doubles.
    - Exceptions are values of [exn]; a function that may raise returns a
      [result].  Float division raises [ZeroDivisionError] on a zero
      divisor, comparing [None] raises [TypeError], as in Python.
    - The dictionaries [block_groups] and [block_values] are iterated, so
      they are insertion-ordered association lists ([odict]); the
      per-block dictionary [norm_values] is only ever looked up and is a
      [gmap].
    - Tier labels are the strings the code returns: "Past" (low),
      "O‘rtacha" (medium), "Yuqori" (high), "Juda yuqori" (very high). *)

From Stdlib Require Import QArith Qcanon ZArith Lqa SpecFloat.
From stdpp Require Import base numbers strings list gmap fin_maps.

Open Scope Qc_scope.

(** ** Exceptions and the error monad *)

Inductive exn : Type :=
  | ValueError (msg : string)
  | ZeroDivisionError
  | TypeError.

Inductive result (A : Type) : Type :=
  | Ok (a : A)
  | Raise (e : exn).
Arguments Ok {A} a.
Arguments Raise {A} e.

#[global] Instance result_ret : MRet result := λ A a, Ok a.
#[global] Instance result_bind : MBind result := λ A B f m,
  match m with
  | Ok a => f a
  | Raise e => Raise e
  end.

(** ** Floats *)

Abbreviation float := Qc (only parsing).

Definition flt (q : Q) : float := Q2Qc q.
Arguments flt q%_Q.

(** [x / y] on floats. *)
Definition float_div (x y : float) : result float :=
  if decide (y = 0) then Raise ZeroDivisionError else Ok (x / y).

(** The builtins [min(a, b)] and [max(a, b)]: the first argument is kept
    unless the second is strictly smaller (larger). *)
Definition py_min2 (a b : float) : float := if decide (b < a) then b else a.
Definition py_max2 (a b : float) : float := if decide (a < b) then b else a.

(** Nearest integer, ties to the even one. *)
Definition round_half_even (x : float) : Z :=
  let n := Qnum x in
  let d := Z.pos (Qden x) in
  let f := (n / d)%Z in
  match (2 * (n mod d) ?= d)%Z with
  | Lt => f
  | Gt => (f + 1)%Z
  | Eq => if Z.even f then f else (f + 1)%Z
  end.

(** [round(x, ndigits)] for [ndigits >= 0]. *)
Definition py_round (x : float) (ndigits : nat) : float :=
  let scale := Z.to_pos (10 ^ Z.of_nat ndigits) in
  Q2Qc (round_half_even (x * Q2Qc (Z.pos scale # 1)) # scale).

(** ** Insertion-ordered dictionaries with string keys *)

Abbreviation odict V := (list (string * V)) (only parsing).

Fixpoint od_get {V} (d : odict V) (k : string) : option V :=
  match d with
  | [] => None
  | (k', v) :: d' => if decide (k' = k) then Some v else od_get d' k
  end.

(** [d[k] = v]: overwrite in place, or append a new key at the end. *)
Fixpoint od_set {V} (d : odict V) (k : string) (v : V) : odict V :=
  match d with
  | [] => [(k, v)]
  | (k', v') :: d' =>
      if decide (k' = k) then (k, v) :: d' else (k', v') :: od_set d' k v
  end.

Definition od_keys {V} (d : odict V) : list string := d.*1.

(** ** The records of [models.py] *)

Module Indicator.
Record t : Type := mk {
    id : string;
    name : string;
    block : string;
    value : float;
    min_value : float;
    max_value : float;
    weight : float;
    is_benefit : bool
}.
End Indicator.

Module BlockWeights.
Record t : Type := mk {
    alpha_R : float;
    alpha_P : float;
    alpha_O : float;
    alpha_I : float
}.
End BlockWeights.

Module EvaluationRequest.
Record t : Type := mk {
    tashkilot : option string;
    yil : option Z;
    indicators : list Indicator.t;
    block_weights : BlockWeights.t
}.
End EvaluationRequest.

Module BlockIndex.
Record t : Type := mk {
    block : string;
    value : float;
    indicators : gmap string float
}.
End BlockIndex.

Module EvaluationResult.
Record t : Type := mk {
    tashkilot : option string;
    yil : option Z;
    total_index : float;
    blocks : list BlockIndex.t;
    level : option string;
    weakest_block : option string;
    strongest_block : option string
}.
End EvaluationResult.

(** ** [normalize] *)

Definition normalize (ind : Indicator.t) : result float :=
  if decide (Indicator.max_value ind = Indicator.min_value ind) then Ok 0
  else
    z ← float_div (Indicator.value ind - Indicator.min_value ind)
                  (Indicator.max_value ind - Indicator.min_value ind);
    let z := if Indicator.is_benefit ind then z else 1 - z in
    Ok (py_max2 0 (py_min2 1 z)).

(** ** [classify_level] *)

Definition classify_level (total_index : float) : string :=
  if decide (total_index < flt 0.25) then "Past"
  else if decide (total_index < flt 0.50) then "O‘rtacha"
  else if decide (total_index < flt 0.75) then "Yuqori"
  else "Juda yuqori".

(** ** [evaluate] *)

(** Step 1, the grouping loop. *)
Fixpoint group_indicators (inds : list Indicator.t)
    (block_groups : odict (list Indicator.t))
    : result (odict (list Indicator.t)) :=
  match inds with
  | [] => Ok block_groups
  | ind :: rest =>
      match od_get block_groups (Indicator.block ind) with
      | None =>
          Raise (ValueError ("Noma'lum blok kodi: " +:+ Indicator.block ind))
      | Some members =>
          group_indicators rest
            (od_set block_groups (Indicator.block ind) (members ++ [ind]))
      end
  end.

(** Step 2, the inner loop over the indicators of one block. *)
Fixpoint accumulate (indicators : list Indicator.t)
    (norm_values : gmap string float) (block_sum weight_sum : float)
    : result (gmap string float * float * float) :=
  match indicators with
  | [] => Ok (norm_values, block_sum, weight_sum)
  | ind :: rest =>
      z ← normalize ind;
      accumulate rest (<[Indicator.id ind := z]> norm_values)
        (block_sum + z * Indicator.weight ind)
        (weight_sum + Indicator.weight ind)
  end.

(** Step 2, the loop over [block_groups.items()]. *)
Fixpoint aggregate (items : list (string * list Indicator.t))
    (block_indices : list BlockIndex.t) (block_values : odict float)
    : result (list BlockIndex.t * odict float) :=
  match items with
  | [] => Ok (block_indices, block_values)
  | (block_code, indicators) :: rest =>
      match indicators with
      | [] =>
          aggregate rest
            (block_indices ++ [BlockIndex.mk block_code 0 ∅])
            (od_set block_values block_code 0)
      | _ :: _ =>
          '(norm_values, block_sum, weight_sum) ← accumulate indicators ∅ 0 0;
          block_index_value ←
            (if decide (0 < weight_sum) then float_div block_sum weight_sum
             else Ok 0);
          aggregate rest
            (block_indices ++
               [BlockIndex.mk block_code (py_round block_index_value 3)
                  norm_values])
            (od_set block_values block_code block_index_value)
      end
  end.

(** Step 3, the weighted sum; [block_values.get(k, 0.0)]. *)
Definition total_index_raw (bw : BlockWeights.t) (block_values : odict float)
    : float :=
  BlockWeights.alpha_R bw * default 0 (od_get block_values "R")
  + BlockWeights.alpha_P bw * default 0 (od_get block_values "P")
  + BlockWeights.alpha_O bw * default 0 (od_get block_values "O")
  + BlockWeights.alpha_I bw * default 0 (od_get block_values "I").

(** [a < b] on what [dict.get] returns. *)
Definition float_lt (a b : option float) : result bool :=
  match a, b with
  | Some x, Some y => Ok (bool_decide (x < y))
  | _, _ => Raise TypeError
  end.

(** [min(iterable, key=key)]: a linear scan that replaces the current
    best only when the new key is strictly smaller. *)
Fixpoint py_min_from {A} (key : A → option float) (best : A) (l : list A)
    : result A :=
  match l with
  | [] => Ok best
  | x :: l' =>
      smaller ← float_lt (key x) (key best);
      py_min_from key (if smaller : bool then x else best) l'
  end.

Definition py_min {A} (key : A → option float) (l : list A) : result A :=
  match l with
  | [] => Raise (ValueError "min() arg is an empty sequence")
  | x :: l' => py_min_from key x l'
  end.

(** [max(iterable, key=key)]: replaces only when strictly larger. *)
Fixpoint py_max_from {A} (key : A → option float) (best : A) (l : list A)
    : result A :=
  match l with
  | [] => Ok best
  | x :: l' =>
      larger ← float_lt (key best) (key x);
      py_max_from key (if larger : bool then x else best) l'
  end.

Definition py_max {A} (key : A → option float) (l : list A) : result A :=
  match l with
  | [] => Raise (ValueError "max() arg is an empty sequence")
  | x :: l' => py_max_from key x l'
  end.

(** Step 5, the extremal blocks. *)
Definition extremal_blocks (block_values : odict float)
    : result (string * string) :=
  match block_values with
  | [] => Ok ("", "")
  | _ :: _ =>
      weakest_block ← py_min (od_get block_values) (od_keys block_values);
      strongest_block ← py_max (od_get block_values) (od_keys block_values);
      Ok (weakest_block, strongest_block)
  end.

(** [s or None]. *)
Definition or_None (s : string) : option string :=
  if decide (s = "") then None else Some s.

Definition evaluate (req : EvaluationRequest.t) : result EvaluationResult.t :=
  block_groups ←
    group_indicators (EvaluationRequest.indicators req)
      [("R", []); ("P", []); ("O", []); ("I", [])];
  '(block_indices, block_values) ← aggregate block_groups [] [];
  let bw := EvaluationRequest.block_weights req in
  let total_index := py_round (total_index_raw bw block_values) 3 in
  let level := classify_level total_index in
  '(weakest_block, strongest_block) ← extremal_blocks block_values;
  Ok (EvaluationResult.mk
        (EvaluationRequest.tashkilot req)
        (EvaluationRequest.yil req)
        total_index
        block_indices
        (Some level)
        (or_None weakest_block)
        (or_None strongest_block)).

(** ** Closed forms *)

(** The clamp to the unit interval. *)
Definition clamp01 (z : float) : float :=
  if decide (z < 0) then 0 else if decide (1 < z) then 1 else z.

(** What [normalize] returns: the ratio of §4.1, inverted for a cost
    indicator, clamped; [0] on equal bounds. *)
Definition normalized (ind : Indicator.t) : float :=
  if decide (Indicator.max_value ind = Indicator.min_value ind) then 0
  else
    let z := (Indicator.value ind - Indicator.min_value ind)
             / (Indicator.max_value ind - Indicator.min_value ind) in
    clamp01 (if Indicator.is_benefit ind then z else 1 - z).

Definition block_codes : list string := ["R"; "P"; "O"; "I"].

Definition recognized (ind : Indicator.t) : Prop :=
  Indicator.block ind ∈ block_codes.

(** The indicators of one block, in request order. *)
Definition members (code : string) (inds : list Indicator.t)
    : list Indicator.t :=
  filter (λ ind, Indicator.block ind = code) inds.

Definition grouped (inds : list Indicator.t) : odict (list Indicator.t) :=
  [("R", members "R" inds); ("P", members "P" inds);
   ("O", members "O" inds); ("I", members "I" inds)].

Definition initial_groups : odict (list Indicator.t) :=
  [("R", []); ("P", []); ("O", []); ("I", [])].

Definition Qcsum (l : list float) : float := foldr Qcplus 0 l.

Definition weighted_sum (inds : list Indicator.t) : float :=
  Qcsum ((λ ind, normalized ind * Indicator.weight ind) <$> inds).

Definition weight_total (inds : list Indicator.t) : float :=
  Qcsum (Indicator.weight <$> inds).

Definition norm_map (inds : list Indicator.t) (m : gmap string float)
    : gmap string float :=
  foldl (λ m ind, <[Indicator.id ind := normalized ind]> m) m inds.

(** The value [evaluate] stores in [block_values] for a block with the
    indicators [inds]: their weighted mean, before any rounding. *)
Definition category_index (inds : list Indicator.t) : float :=
  if decide (0 < weight_total inds)
  then weighted_sum inds / weight_total inds
  else 0.

(** The entry [evaluate] appends to [block_indices] for that block. *)
Definition block_entry (code : string) (inds : list Indicator.t)
    : BlockIndex.t :=
  BlockIndex.mk code (py_round (category_index inds) 3) (norm_map inds ∅).

Definition index_of (req : EvaluationRequest.t) (code : string) : float :=
  category_index (members code (EvaluationRequest.indicators req)).

Definition weighted_total (req : EvaluationRequest.t) : float :=
  let bw := EvaluationRequest.block_weights req in
  BlockWeights.alpha_R bw * index_of req "R"
  + BlockWeights.alpha_P bw * index_of req "P"
  + BlockWeights.alpha_O bw * index_of req "O"
  + BlockWeights.alpha_I bw * index_of req "I".

(** The [block_values] of a request, in insertion order. *)
Definition block_values_of (req : EvaluationRequest.t) : odict float :=
  [("R", index_of req "R"); ("P", index_of req "P");
   ("O", index_of req "O"); ("I", index_of req "I")].

Definition block_entries (req : EvaluationRequest.t) : list BlockIndex.t :=
  (λ code, block_entry code (members code (EvaluationRequest.indicators req)))
    <$> block_codes.

Definition closed_result (req : EvaluationRequest.t) (w s : string)
    : EvaluationResult.t :=
  EvaluationResult.mk
    (EvaluationRequest.tashkilot req) (EvaluationRequest.yil req)
    (py_round (weighted_total req) 3)
    (block_entries req)
    (Some (classify_level (py_round (weighted_total req) 3)))
    (Some w) (Some s).

(** [m] is the first element of [l] at which [val] is least (greatest). *)
Definition first_min {A} (val : A → float) (l : list A) (m : A) : Prop :=
  ∃ pre post, l = pre ++ m :: post
    ∧ Forall (λ x, val m < val x) pre ∧ Forall (λ x, val m ≤ val x) post.

Definition first_max {A} (val : A → float) (l : list A) (m : A) : Prop :=
  ∃ pre post, l = pre ++ m :: post
    ∧ Forall (λ x, val x < val m) pre ∧ Forall (λ x, val x ≤ val m) post.

(** ** Sample requests *)

Definition benefit (i b : string) (v lo hi w : Q) : Indicator.t :=
  Indicator.mk i i b (flt v) (flt lo) (flt hi) (flt w) true.

Definition equal_weights : BlockWeights.t :=
  BlockWeights.mk (flt 0.25) (flt 0.25) (flt 0.25) (flt 0.25).

Definition scenario : EvaluationRequest.t :=
  EvaluationRequest.mk None None
    [ benefit "r1" "R" 80 0 100 1; benefit "p1" "P" 20 0 100 1;
      benefit "o1" "O" 50 0 100 1; benefit "i1" "I" 0 0 100 1 ]
    equal_weights.

(** Four blocks whose indices are 0.2496 each, under equal weights. *)
Definition near_quarter : EvaluationRequest.t :=
  EvaluationRequest.mk None None
    [ benefit "r1" "R" 2496 0 10000 1; benefit "p1" "P" 2496 0 10000 1;
      benefit "o1" "O" 2496 0 10000 1; benefit "i1" "I" 2496 0 10000 1 ]
    equal_weights.


Definition degenerate_cost : Indicator.t :=
  Indicator.mk "d1" "d1" "P" (flt 7) (flt 5) (flt 5) (flt 1) false.

(** ** The callers in [main.py] *)

(** A row of the table [evaluations]; the JSON column holds an object of
    numbers or nulls, or is NULL. *)
Module Evaluation.
Record t : Type := mk {
  id : option Z;
  tashkilot : option string;
  yil : option Z;
  total_index : option float;
  block_values : option (gmap string (option float))
}.
End Evaluation.

(** [evaluate_endpoint], step 2: the dictionary read off [result.blocks]. *)
Definition endpoint_block_values (result : EvaluationResult.t)
    : gmap string float :=
  foldl (λ block_values b,
           <[BlockIndex.block b := BlockIndex.value b]> block_values)
    ∅ (EvaluationResult.blocks result).

(** [evaluate_endpoint], step 3: the ORM object handed to the session. *)
Definition db_obj (result : EvaluationResult.t) : Evaluation.t :=
  Evaluation.mk None
    (EvaluationResult.tashkilot result)
    (EvaluationResult.yil result)
    (Some (EvaluationResult.total_index result))
    (Some (Some <$> endpoint_block_values result)).

(** A worksheet cell. *)
Inductive cell : Type :=
  | CellInt (n : Z)
  | CellFloat (x : float)
  | CellStr (s : string)
  | CellNone.

(** [float(bv.get(code, 0)) if bv.get(code) is not None else None]. *)
Definition block_cell (bv : gmap string (option float)) (code : string)
    : cell :=
  match bv !! code with
  | Some (Some x) => CellFloat x
  | _ => CellNone
  end.

(** The list [export_excel] appends to the sheet for one stored row. *)
Definition export_row (idx : Z) (row : Evaluation.t) : list cell :=
  let bv := default ∅ (Evaluation.block_values row) in
  [ CellInt idx;
    CellStr (default "" (Evaluation.tashkilot row));
    match Evaluation.yil row with
    | Some y => if decide (y = 0%Z) then CellStr "" else CellInt y
    | None => CellStr ""
    end;
    match Evaluation.total_index row with
    | Some x => CellFloat x
    | None => CellNone
    end;
    block_cell bv "R"; block_cell bv "P"; block_cell bv "O"; block_cell bv "I" ].

Definition headers : list string :=
  ["#"; "Tashkilot"; "Yil"; "Umumiy indeks"; "R"; "P"; "O"; "I"].

(** The rows of the sheet: the header, then the stored rows numbered
    from 1. *)
Definition export_sheet (evaluations : list Evaluation.t) : list (list cell) :=
  (CellStr <$> headers)
  :: imap (λ i row, export_row (Z.of_nat i + 1) row) evaluations.

(** ** Auxiliary notions for the statements *)

(** The position of a tier label in the order of [classify_level]. *)
Definition level_rank (label : string) : nat :=
  if decide (label = "Past") then 0
  else if decide (label = "O‘rtacha") then 1
  else if decide (label = "Yuqori") then 2
  else 3.


Definition scenario_r1 : Indicator.t := benefit "r1" "R" 80 0 100 1.

(** [req] with its list of indicators replaced. *)
Definition with_indicators (req : EvaluationRequest.t)
    (inds : list Indicator.t) : EvaluationRequest.t :=
  EvaluationRequest.mk (EvaluationRequest.tashkilot req)
    (EvaluationRequest.yil req) inds (EvaluationRequest.block_weights req).

Definition unweighted_extra : EvaluationRequest.t :=
  EvaluationRequest.mk None None
    [ benefit "r1" "R" 80 0 100 1; benefit "r2" "R" 10 0 100 0 ]
    equal_weights.

(** ** The same code on IEEE 754 doubles

    The functions of [core.py] once more, with every [float] a binary64
    number of the Standard Library's [SpecFloat]: operations round to
    nearest, ties to even, overflow to an infinity, and produce NaN as the
    hardware does.  Statements whose truth depends on that rounding are
    made on this embedding. *)

Module F64.

Abbreviation float := spec_float (only parsing).

Definition prec : Z := 53.
Definition emax : Z := 1024.

Definition add : float → float → float := SFadd prec emax.
Definition sub : float → float → float := SFsub prec emax.
Definition mul : float → float → float := SFmul prec emax.
Definition eqb : float → float → bool := SFeqb.
Definition ltb : float → float → bool := SFltb.
Definition leb : float → float → bool := SFleb.

(** The double nearest to an integer; exact below 2^53. *)
Definition of_Z (z : Z) : float := binary_normalize prec emax z 0 false.

Definition is_zero (x : float) : bool :=
  match x with S754_zero _ => true | _ => false end.

(** [x / y]: Python raises on a zero divisor of either sign. *)
Definition float_div (x y : float) : result float :=
  if is_zero y then Raise ZeroDivisionError else Ok (SFdiv prec emax x y).

(** The literal [n / d] in decimal notation, [n] and [d] below 2^53: the
    double nearest to the fraction. *)
Definition dec (n : Z) (d : positive) : float :=
  SFdiv prec emax (of_Z n) (of_Z (Z.pos d)).

Definition zero : float := S754_zero false.
Definition one : float := of_Z 1.

(** [min(a, b)] and [max(a, b)]: the first argument is kept unless the
    comparison with the second succeeds (it fails on NaN). *)
Definition py_min2 (a b : float) : float := if ltb b a then b else a.
Definition py_max2 (a b : float) : float := if ltb a b then b else a.

(** The real number a finite double stands for. *)
Definition exact (x : float) : Qc :=
  match x with
  | S754_finite s m e =>
      let n := if s then Z.neg m else Z.pos m in
      match e with
      | Z.neg k => Q2Qc (n # 2 ^ k)
      | _ => Q2Qc (n * 2 ^ e # 1)
      end
  | _ => 0
  end.

(** [round(x, ndigits)] for [0 <= ndigits <= 22]: the decimal with
    [ndigits] places nearest to the exact value of [x], ties to the even
    last digit, converted back to the nearest double.  Zeros, infinities
    and NaN come back unchanged; so does a double so large that its
    neighbours are further apart than the last decimal place. *)
Definition py_round (x : float) (ndigits : nat) : float :=
  match x with
  | S754_finite s _ _ =>
      let scale := Z.to_pos (10 ^ Z.of_nat ndigits) in
      let k := round_half_even (exact x * Q2Qc (Z.pos scale # 1)) in
      if (Z.abs k <? 2 ^ 53)%Z
      then if (k =? 0)%Z then S754_zero s
           else SFdiv prec emax (of_Z k) (of_Z (Z.pos scale))
      else x
  | _ => x
  end.

(** *** The records of [models.py] *)

Module Indicator.
Record t : Type := mk {
  id : string;
  name : string;
  block : string;
  value : float;
  min_value : float;
  max_value : float;
  weight : float;
  is_benefit : bool
}.
End Indicator.

Module BlockWeights.
Record t : Type := mk {
  alpha_R : float;
  alpha_P : float;
  alpha_O : float;
  alpha_I : float
}.
End BlockWeights.

Module EvaluationRequest.
Record t : Type := mk {
  tashkilot : option string;
  yil : option Z;
  indicators : list Indicator.t;
  block_weights : BlockWeights.t
}.
End EvaluationRequest.

Module BlockIndex.
Record t : Type := mk {
  block : string;
  value : float;
  indicators : gmap string float
}.
End BlockIndex.

Module EvaluationResult.
Record t : Type := mk {
  tashkilot : option string;
  yil : option Z;
  total_index : float;
  blocks : list BlockIndex.t;
  level : option string;
  weakest_block : option string;
  strongest_block : option string
}.
End EvaluationResult.

(** *** [normalize] *)

Definition normalize (ind : Indicator.t) : result float :=
  if eqb (Indicator.max_value ind) (Indicator.min_value ind) then Ok zero
  else
    z ← float_div (sub (Indicator.value ind) (Indicator.min_value ind))
                  (sub (Indicator.max_value ind) (Indicator.min_value ind));
    let z := if Indicator.is_benefit ind then z else sub one z in
    Ok (py_max2 zero (py_min2 one z)).

(** *** [classify_level] *)

Definition classify_level (total_index : float) : string :=
  if ltb total_index (dec 25 100) then "Past"
  else if ltb total_index (dec 50 100) then "O‘rtacha"
  else if ltb total_index (dec 75 100) then "Yuqori"
  else "Juda yuqori".

(** *** [evaluate] *)

Fixpoint group_indicators (inds : list Indicator.t)
    (block_groups : odict (list Indicator.t))
    : result (odict (list Indicator.t)) :=
  match inds with
  | [] => Ok block_groups
  | ind :: rest =>
      match od_get block_groups (Indicator.block ind) with
      | None =>
          Raise (ValueError ("Noma'lum blok kodi: " +:+ Indicator.block ind))
      | Some members =>
          group_indicators rest
            (od_set block_groups (Indicator.block ind) (members ++ [ind]))
      end
  end.

Fixpoint accumulate (indicators : list Indicator.t)
    (norm_values : gmap string float) (block_sum weight_sum : float)
    : result (gmap string float * float * float) :=
  match indicators with
  | [] => Ok (norm_values, block_sum, weight_sum)
  | ind :: rest =>
      z ← normalize ind;
      accumulate rest (<[Indicator.id ind := z]> norm_values)
        (add block_sum (mul z (Indicator.weight ind)))
        (add weight_sum (Indicator.weight ind))
  end.

Fixpoint aggregate (items : list (string * list Indicator.t))
    (block_indices : list BlockIndex.t) (block_values : odict float)
    : result (list BlockIndex.t * odict float) :=
  match items with
  | [] => Ok (block_indices, block_values)
  | (block_code, indicators) :: rest =>
      match indicators with
      | [] =>
          aggregate rest
            (block_indices ++ [BlockIndex.mk block_code zero ∅])
            (od_set block_values block_code zero)
      | _ :: _ =>
          '(norm_values, block_sum, weight_sum) ←
            accumulate indicators ∅ zero zero;
          block_index_value ←
            (if ltb zero weight_sum then float_div block_sum weight_sum
             else Ok zero);
          aggregate rest
            (block_indices ++
               [BlockIndex.mk block_code (py_round block_index_value 3)
                  norm_values])
            (od_set block_values block_code block_index_value)
      end
  end.

Definition total_index_raw (bw : BlockWeights.t) (block_values : odict float)
    : float :=
  add (add (add (mul (BlockWeights.alpha_R bw)
                   (default zero (od_get block_values "R")))
                (mul (BlockWeights.alpha_P bw)
                   (default zero (od_get block_values "P"))))
           (mul (BlockWeights.alpha_O bw)
              (default zero (od_get block_values "O"))))
      (mul (BlockWeights.alpha_I bw) (default zero (od_get block_values "I"))).

(** [a < b] on what [dict.get] returns. *)
Definition float_lt (a b : option float) : result bool :=
  match a, b with
  | Some x, Some y => Ok (ltb x y)
  | _, _ => Raise TypeError
  end.

Fixpoint py_min_from {A} (key : A → option float) (best : A) (l : list A)
    : result A :=
  match l with
  | [] => Ok best
  | x :: l' =>
      smaller ← float_lt (key x) (key best);
      py_min_from key (if smaller : bool then x else best) l'
  end.

Definition py_min {A} (key : A → option float) (l : list A) : result A :=
  match l with
  | [] => Raise (ValueError "min() arg is an empty sequence")
  | x :: l' => py_min_from key x l'
  end.

Fixpoint py_max_from {A} (key : A → option float) (best : A) (l : list A)
    : result A :=
  match l with
  | [] => Ok best
  | x :: l' =>
      larger ← float_lt (key best) (key x);
      py_max_from key (if larger : bool then x else best) l'
  end.

Definition py_max {A} (key : A → option float) (l : list A) : result A :=
  match l with
  | [] => Raise (ValueError "max() arg is an empty sequence")
  | x :: l' => py_max_from key x l'
  end.

Definition extremal_blocks (block_values : odict float)
    : result (string * string) :=
  match block_values with
  | [] => Ok ("", "")
  | _ :: _ =>
      weakest_block ← py_min (od_get block_values) (od_keys block_values);
      strongest_block ← py_max (od_get block_values) (od_keys block_values);
      Ok (weakest_block, strongest_block)
  end.

Definition evaluate (req : EvaluationRequest.t) : result EvaluationResult.t :=
  block_groups ←
    group_indicators (EvaluationRequest.indicators req)
      [("R", []); ("P", []); ("O", []); ("I", [])];
  '(block_indices, block_values) ← aggregate block_groups [] [];
  let bw := EvaluationRequest.block_weights req in
  let total_index := py_round (total_index_raw bw block_values) 3 in
  let level := classify_level total_index in
  '(weakest_block, strongest_block) ← extremal_blocks block_values;
  Ok (EvaluationResult.mk
        (EvaluationRequest.tashkilot req)
        (EvaluationRequest.yil req)
        total_index
        block_indices
        (Some level)
        (or_None weakest_block)
        (or_None strongest_block)).

End F64.

(** *** Closed forms on doubles *)

Module F64Forms.
Import F64.

Definition recognized (ind : Indicator.t) : Prop :=
  Indicator.block ind ∈ block_codes.

Definition members (code : string) (inds : list Indicator.t)
    : list Indicator.t :=
  filter (λ ind, Indicator.block ind = code) inds.

Definition grouped (inds : list Indicator.t) : odict (list Indicator.t) :=
  [("R", members "R" inds); ("P", members "P" inds);
   ("O", members "O" inds); ("I", members "I" inds)].

(** The clamp [max(0.0, min(1.0, z))]; a NaN goes to 1.0. *)
Definition clamp01 (z : float) : float := py_max2 zero (py_min2 one z).

(** What [normalize] returns when it returns. *)
Definition normalized (ind : Indicator.t) : float :=
  if eqb (Indicator.max_value ind) (Indicator.min_value ind) then zero
  else
    let z := SFdiv prec emax
               (sub (Indicator.value ind) (Indicator.min_value ind))
               (sub (Indicator.max_value ind) (Indicator.min_value ind)) in
    clamp01 (if Indicator.is_benefit ind then z else sub one z).

(** The sums of the inner loop, added up from 0.0 in list order. *)
Definition fsum (l : list float) : float := foldl add zero l.

Definition block_sum (inds : list Indicator.t) : float :=
  fsum ((λ ind, mul (normalized ind) (Indicator.weight ind)) <$> inds).

Definition weight_sum (inds : list Indicator.t) : float :=
  fsum (Indicator.weight <$> inds).

Definition norm_map (inds : list Indicator.t) (m : gmap string float)
    : gmap string float :=
  foldl (λ m ind, <[Indicator.id ind := normalized ind]> m) m inds.

(** The value kept in [block_values] for a block with the indicators
    [inds]: the weighted mean as the doubles give it, not yet rounded. *)
Definition category_index (inds : list Indicator.t) : float :=
  match inds with
  | [] => zero
  | _ :: _ =>
      if ltb zero (weight_sum inds)
      then SFdiv prec emax (block_sum inds) (weight_sum inds)
      else zero
  end.

Definition block_entry (code : string) (inds : list Indicator.t)
    : BlockIndex.t :=
  match inds with
  | [] => BlockIndex.mk code zero ∅
  | _ :: _ =>
      BlockIndex.mk code (py_round (category_index inds) 3) (norm_map inds ∅)
  end.

Definition index_of (req : EvaluationRequest.t) (code : string) : float :=
  category_index (members code (EvaluationRequest.indicators req)).

Definition block_values_of (req : EvaluationRequest.t) : odict float :=
  [("R", index_of req "R"); ("P", index_of req "P");
   ("O", index_of req "O"); ("I", index_of req "I")].

Definition block_entries (req : EvaluationRequest.t) : list BlockIndex.t :=
  (λ code, block_entry code (members code (EvaluationRequest.indicators req)))
    <$> block_codes.

(** The weighted sum of step 3, over the unrounded block indices. *)
Definition weighted_total (req : EvaluationRequest.t) : float :=
  let bw := EvaluationRequest.block_weights req in
  add (add (add (mul (BlockWeights.alpha_R bw) (index_of req "R"))
                (mul (BlockWeights.alpha_P bw) (index_of req "P")))
           (mul (BlockWeights.alpha_O bw) (index_of req "O")))
      (mul (BlockWeights.alpha_I bw) (index_of req "I")).

Definition closed_result (req : EvaluationRequest.t) (w s : string)
    : EvaluationResult.t :=
  EvaluationResult.mk
    (EvaluationRequest.tashkilot req) (EvaluationRequest.yil req)
    (py_round (weighted_total req) 3)
    (block_entries req)
    (Some (classify_level (py_round (weighted_total req) 3)))
    (Some w) (Some s).

(** [m] is the first element of [l] at which [val] is least (greatest)
    in the order of the doubles. *)
Definition first_min {A} (val : A → float) (l : list A) (m : A) : Prop :=
  ∃ pre post, l = pre ++ m :: post
    ∧ Forall (λ x, ltb (val m) (val x) = true) pre
    ∧ Forall (λ x, leb (val m) (val x) = true) post.

Definition first_max {A} (val : A → float) (l : list A) (m : A) : Prop :=
  ∃ pre post, l = pre ++ m :: post
    ∧ Forall (λ x, ltb (val x) (val m) = true) pre
    ∧ Forall (λ x, leb (val x) (val m) = true) post.

Definition is_nan (x : float) : bool :=
  match x with S754_nan => true | _ => false end.

(** [r] is [x] rounded to [ndigits] decimal places: for a finite [x],
    some integer [k] within 1/2 of [x * 10^ndigits], even when exactly
    half way, gives [r] as the double nearest to [k / 10^ndigits] (a zero
    with the sign of [x] when [k = 0], and [x] itself when [k] is too
    large to be a double); anything else is unchanged. *)
Definition rounds_to (ndigits : nat) (x r : float) : Prop :=
  match x with
  | S754_finite s _ _ =>
      let scale := Z.to_pos (10 ^ Z.of_nat ndigits) in
      let y := (exact x * Q2Qc (Z.pos scale # 1))%Qc in
      ∃ k : Z,
        (Q2Qc (inject_Z k) - y ≤ Q2Qc (1 # 2))%Qc
        ∧ (y - Q2Qc (inject_Z k) ≤ Q2Qc (1 # 2))%Qc
        ∧ ((Q2Qc (inject_Z k) - y = Q2Qc (1 # 2)
            ∨ y - Q2Qc (inject_Z k) = Q2Qc (1 # 2))%Qc → Z.even k = true)
        ∧ r = if (Z.abs k <? 2 ^ 53)%Z
              then if (k =? 0)%Z then S754_zero s
                   else SFdiv prec emax (of_Z k) (of_Z (Z.pos scale))
              else x
  | _ => r = x
  end.

End F64Forms.

(** *** Sample requests on doubles *)

Module F64Samples.
Import F64 F64Forms.

Definition benefit (i b : string) (v lo hi w : Z) : Indicator.t :=
  Indicator.mk i i b (of_Z v) (of_Z lo) (of_Z hi) (of_Z w) true.

Definition equal_weights : BlockWeights.t :=
  BlockWeights.mk (dec 25 100) (dec 25 100) (dec 25 100) (dec 25 100).

Definition scenario : EvaluationRequest.t :=
  EvaluationRequest.mk None None
    [ benefit "r1" "R" 80 0 100 1; benefit "p1" "P" 20 0 100 1;
      benefit "o1" "O" 50 0 100 1; benefit "i1" "I" 0 0 100 1 ]
    equal_weights.

(** Block indices 0.0014, 0.0004, 0.0004, 0.0004 under equal weights. *)
Definition small_indices : EvaluationRequest.t :=
  EvaluationRequest.mk None None
    [ benefit "r1" "R" 14 0 10000 1; benefit "p1" "P" 4 0 10000 1;
      benefit "o1" "O" 4 0 10000 1; benefit "i1" "I" 4 0 10000 1 ]
    equal_weights.

(** Weight 3 on a block of index 1. *)
Definition heavy_weight : EvaluationRequest.t :=
  EvaluationRequest.mk None None [ benefit "r1" "R" 100 0 100 1 ]
    (BlockWeights.mk (of_Z 3) zero zero zero).

(** R and P tie for the least index (0.5), O and I for the greatest (0.9). *)
Definition tied_blocks : EvaluationRequest.t :=
  EvaluationRequest.mk None None
    [ benefit "r1" "R" 50 0 100 1; benefit "p1" "P" 50 0 100 1;
      benefit "o1" "O" 90 0 100 1; benefit "i1" "I" 90 0 100 1 ]
    equal_weights.

(** R at 0.3334 and P at 0.3331 are both emitted as 0.333. *)
Definition close_blocks : EvaluationRequest.t :=
  EvaluationRequest.mk None None
    [ benefit "r1" "R" 3334 0 10000 1; benefit "p1" "P" 3331 0 10000 1;
      benefit "o1" "O" 90 0 100 1; benefit "i1" "I" 90 0 100 1 ]
    equal_weights.

(** Two indicators of block R under one identifier. *)
Definition shared_id_first : Indicator.t := benefit "a" "R" 20 0 100 1.

Definition shared_id : EvaluationRequest.t :=
  EvaluationRequest.mk None None
    [ shared_id_first; benefit "a" "R" 80 0 100 1 ]
    equal_weights.

(** A cost indicator at [value = max_value] whose bounds -1e308 and 1e308
    are so far apart that their difference overflows. *)
Definition wide_cost : Indicator.t :=
  Indicator.mk "c1" "c1" "R" (of_Z (10 ^ 308)) (of_Z (- 10 ^ 308))
    (of_Z (10 ^ 308)) one false.

(** A cost indicator at [value = max_value] with bounds 0 and 100. *)
Definition plain_cost : Indicator.t :=
  Indicator.mk "c2" "c2" "R" (of_Z 100) (of_Z 0) (of_Z 100) one false.

(** The block value a result carries for [code]. *)
Definition emitted (res : EvaluationResult.t) (code : string) : float :=
  default zero
    (od_get ((λ b, (BlockIndex.block b, BlockIndex.value b))
               <$> EvaluationResult.blocks res) code).

(** C1 as the specification words it: the overall index composed from
    the block values as emitted, each rounded to 3 decimal places. *)
Definition total_from_emitted (req : EvaluationRequest.t)
    (res : EvaluationResult.t) : Prop :=
  let bw := EvaluationRequest.block_weights req in
  EvaluationResult.total_index res
  = py_round
      (add (add (add (mul (BlockWeights.alpha_R bw) (emitted res "R"))
                     (mul (BlockWeights.alpha_P bw) (emitted res "P")))
                (mul (BlockWeights.alpha_O bw) (emitted res "O")))
           (mul (BlockWeights.alpha_I bw) (emitted res "I"))) 3.

(** C2 as the specification words it, for the mapping: every indicator's
    identifier is sent to that indicator's normalized value. *)
Definition mapping_sends_each (req : EvaluationRequest.t)
    (res : EvaluationResult.t) : Prop :=
  ∀ b ind z,
    b ∈ EvaluationResult.blocks res →
    ind ∈ EvaluationRequest.indicators req →
    Indicator.block ind = BlockIndex.block b →
    normalize ind = Ok z →
    BlockIndex.indicators b !! Indicator.id ind = Some z.

(** C6 read on the block values a result carries. *)
Definition weakest_first_among_emitted (res : EvaluationResult.t) : Prop :=
  ∀ w, EvaluationResult.weakest_block res = Some w →
       first_min (emitted res) block_codes w.

End F64Samples.

(** ** Order on floats *)

Lemma Qc_eq_Qeq (a b : float) : a = b → (a == b)%Q.
Proof. by intros ->. Qed.

(** Linear goals on floats, through their fractions. *)
Ltac qc_order :=
  repeat match goal with
         | H : ¬ (_ < _)%Qc |- _ => apply Qcnot_lt_le in H
         | H : ¬ (_ ≤ _)%Qc |- _ => apply Qcnot_le_lt in H
         | H : (_ = _ :> Qc) |- _ => apply Qc_eq_Qeq in H
         | |- ¬ (_ < _)%Qc => apply Qcle_not_lt
         | |- ¬ (_ ≤ _)%Qc => apply Qclt_not_le
         | |- (_ = _ :> Qc) => apply Qc_is_canon
         end;
  unfold Qclt, Qcle, flt, Qcminus, Qcplus, Qcmult, Qcopp in *;
  cbn [this Q2Qc] in *;
  rewrite ?Qred_correct in *;
  lra.

(** Decide a closed equation between floats, or options of floats, by
    evaluation. *)
Ltac float_eq :=
  vm_compute;
  lazymatch goal with
  | |- Some _ = Some _ => f_equal; apply Qc_is_canon; reflexivity
  | |- (_ = _ :> Qc) => apply Qc_is_canon; reflexivity
  | |- _ => reflexivity
  end.

Lemma Qcminus_eq_0 (x y : float) : x - y = 0 → x = y.
Proof. intros H. qc_order. Qed.

Lemma py_round_0 n : py_round 0 n = 0.
Proof. apply Qc_is_canon. unfold py_round. by rewrite Qcmult_0_l. Qed.

(** ** [normalize] in closed form *)

Lemma clamp_builtins z : py_max2 0 (py_min2 1 z) = clamp01 z.
Proof.
  unfold py_max2, py_min2, clamp01.
  repeat case_decide; try reflexivity; qc_order.
Qed.


Lemma normalize_Ok ind : normalize ind = Ok (normalized ind).
Proof.
  unfold normalize, normalized, float_div.
  destruct (decide (Indicator.max_value ind = Indicator.min_value ind))
    as [|Hne]; [reflexivity|].
  destruct (decide (Indicator.max_value ind - Indicator.min_value ind = 0))
    as [H0|_].
  - destruct Hne. by apply Qcminus_eq_0.
  - simpl. by rewrite clamp_builtins.
Qed.

(** ** The loops of [evaluate] in closed form *)

(** *** Grouping *)

Lemma recognized_cases ind :
  recognized ind ↔
  Indicator.block ind = "R" ∨ Indicator.block ind = "P"
  ∨ Indicator.block ind = "O" ∨ Indicator.block ind = "I".
Proof.
  unfold recognized, block_codes.
  rewrite !elem_of_cons, elem_of_nil. tauto.
Qed.

Lemma members_cons_eq code ind inds :
  Indicator.block ind = code → members code (ind :: inds) = ind :: members code inds.
Proof. intros. unfold members. by rewrite filter_cons_True. Qed.

Lemma members_cons_ne code ind inds :
  Indicator.block ind ≠ code → members code (ind :: inds) = members code inds.
Proof. intros. unfold members. by rewrite filter_cons_False. Qed.

Lemma group_indicators_Ok inds : ∀ r p o i,
  Forall recognized inds →
  group_indicators inds [("R", r); ("P", p); ("O", o); ("I", i)]
  = Ok [("R", r ++ members "R" inds); ("P", p ++ members "P" inds);
        ("O", o ++ members "O" inds); ("I", i ++ members "I" inds)].
Proof.
  induction inds as [|ind inds IH]; intros r p o i Hall.
  - unfold members. simpl. by rewrite !app_nil_r.
  - apply Forall_cons in Hall as [Hind Hall].
    apply recognized_cases in Hind.
    destruct Hind as [E|[E|[E|E]]]; cbn [group_indicators od_get od_set];
      rewrite E; repeat (rewrite decide_False by done);
      rewrite decide_True by done; cbn [od_set];
      repeat (rewrite decide_False by done);
      rewrite ?decide_True by done; rewrite IH by done;
      rewrite (members_cons_eq _ ind _ E);
      rewrite !(members_cons_ne _ ind) by (by rewrite E);
      by rewrite <-app_assoc.
Qed.

Lemma group_indicators_Raise pre bad post : ∀ r p o i,
  Forall recognized pre → ¬ recognized bad →
  group_indicators (pre ++ bad :: post) [("R", r); ("P", p); ("O", o); ("I", i)]
  = Raise (ValueError ("Noma'lum blok kodi: " +:+ Indicator.block bad)).
Proof.
  induction pre as [|ind pre IH]; intros r p o i Hall Hbad.
  - rewrite recognized_cases in Hbad.
    cbn [app group_indicators od_get].
    repeat (rewrite decide_False by (intros E; apply Hbad; auto)).
    reflexivity.
  - apply Forall_cons in Hall as [Hind Hall].
    apply recognized_cases in Hind.
    destruct Hind as [E|[E|[E|E]]];
      cbn [app group_indicators od_get od_set];
      rewrite E; repeat (rewrite decide_False by done);
      rewrite decide_True by done; cbn [od_set];
      repeat (rewrite decide_False by done);
      rewrite ?decide_True by done; by apply IH.
Qed.

(** Either every block code is recognized, or there is a first indicator
    whose code is not. *)
Lemma first_unrecognized inds :
  Forall recognized inds
  ∨ ∃ pre bad post, inds = pre ++ bad :: post
      ∧ Forall recognized pre ∧ ¬ recognized bad.
Proof.
  induction inds as [|ind inds IH]; [by left|].
  destruct (decide (recognized ind)) as [Hind|Hind].
  - destruct IH as [Hall|(pre & bad & post & -> & Hpre & Hbad)].
    + left. by constructor.
    + right. exists (ind :: pre), bad, post. repeat split; [by constructor|done].
  - right. exists [], ind, inds. by repeat split.
Qed.

(** *** Aggregation *)

Lemma accumulate_Ok inds : ∀ m s w,
  accumulate inds m s w
  = Ok (norm_map inds m, s + weighted_sum inds, w + weight_total inds).
Proof.
  induction inds as [|ind inds IH]; intros m s w.
  - unfold weighted_sum, weight_total. simpl. by rewrite !Qcplus_0_r.
  - cbn [accumulate]. rewrite normalize_Ok. cbn [mbind result_bind].
    rewrite IH. unfold weighted_sum, weight_total, norm_map. simpl.
    by rewrite !Qcplus_assoc.
Qed.

Lemma aggregate_cons code inds rest bis bvs :
  aggregate ((code, inds) :: rest) bis bvs
  = aggregate rest (bis ++ [block_entry code inds])
      (od_set bvs code (category_index inds)).
Proof.
  unfold block_entry, category_index.
  destruct inds as [|ind inds].
  - cbn [aggregate]. unfold weight_total. simpl.
    by rewrite py_round_0.
  - cbn [aggregate]. rewrite accumulate_Ok. cbn [mbind result_bind].
    rewrite !Qcplus_0_l.
    destruct (decide (0 < weight_total (ind :: inds))) as [Hpos|Hneg];
      [|reflexivity].
    unfold float_div. rewrite decide_False; [reflexivity|].
    intros E. rewrite E in Hpos. by apply Qclt_not_eq in Hpos.
Qed.

Lemma aggregate_grouped inds :
  aggregate (grouped inds) [] []
  = Ok ([block_entry "R" (members "R" inds); block_entry "P" (members "P" inds);
         block_entry "O" (members "O" inds); block_entry "I" (members "I" inds)],
        [("R", category_index (members "R" inds));
         ("P", category_index (members "P" inds));
         ("O", category_index (members "O" inds));
         ("I", category_index (members "I" inds))]).
Proof.
  unfold grouped. rewrite !aggregate_cons. cbn [aggregate od_set app].
  by repeat (rewrite decide_False by done).
Qed.

(** *** The per-block dictionary of normalized values *)

Lemma norm_map_cons ind inds (m : gmap string float) :
  norm_map (ind :: inds) m
  = norm_map inds (<[Indicator.id ind := normalized ind]> m).
Proof. reflexivity. Qed.

Lemma norm_map_lookup_fresh inds : ∀ (m : gmap string float) k,
  k ∉ Indicator.id <$> inds → norm_map inds m !! k = m !! k.
Proof.
  induction inds as [|ind inds IH]; intros m k Hk; [done|].
  rewrite fmap_cons, not_elem_of_cons in Hk. destruct Hk as [Hne Hk].
  rewrite norm_map_cons, IH by done. by rewrite lookup_insert_ne.
Qed.

Lemma norm_map_lookup inds : ∀ (m : gmap string float) ind,
  NoDup (Indicator.id <$> inds) → ind ∈ inds →
  norm_map inds m !! Indicator.id ind = Some (normalized ind).
Proof.
  induction inds as [|i inds IH]; intros m ind Hnd Hin.
  - by apply elem_of_nil in Hin.
  - rewrite fmap_cons, NoDup_cons in Hnd. destruct Hnd as [Hfresh Hnd].
    rewrite norm_map_cons.
    apply elem_of_cons in Hin as [->|Hin].
    + rewrite norm_map_lookup_fresh by done. by rewrite lookup_insert_eq.
    + by apply IH.
Qed.

(** Without distinct identifiers the last indicator of a block wins. *)
Lemma norm_map_last inds ind (m : gmap string float) :
  norm_map (inds ++ [ind]) m !! Indicator.id ind = Some (normalized ind).
Proof.
  unfold norm_map. rewrite foldl_app. cbn [foldl]. by rewrite lookup_insert_eq.
Qed.

Lemma Forall2_normalize inds zs :
  Forall2 (λ ind z, normalize ind = Ok z) inds zs → zs = normalized <$> inds.
Proof.
  induction 1 as [|ind z inds zs Hz _ IH]; [done|].
  rewrite normalize_Ok in Hz. injection Hz as <-. by rewrite IH.
Qed.

Lemma weighted_sum_zip inds :
  weighted_sum inds
  = Qcsum (zip_with Qcmult (normalized <$> inds) (Indicator.weight <$> inds)).
Proof.
  unfold weighted_sum. f_equal.
  induction inds as [|ind inds IH]; [done|].
  rewrite !fmap_cons. cbn [zip_with]. by rewrite IH.
Qed.

Lemma elem_of_zip_normalized inds ind z :
  (ind, z) ∈ zip inds (normalized <$> inds) → ind ∈ inds ∧ z = normalized ind.
Proof.
  induction inds as [|i inds IH]; simpl.
  - by intros ?%elem_of_nil.
  - intros [E|Hin]%elem_of_cons.
    + injection E as -> ->. split; [by left|done].
    + destruct (IH Hin). split; [by right|done].
Qed.

Lemma members_NoDup code inds :
  NoDup (Indicator.id <$> inds) → NoDup (Indicator.id <$> members code inds).
Proof.
  intros Hnd. eapply sublist_NoDup; [exact Hnd|].
  apply fmap_sublist, sublist_filter.
Qed.

(** *** The scans behind [min] and [max] *)

Lemma py_min_from_first {A} (key : A → option float) (val : A → float) l :
  ∀ seen best,
  (∀ x, x ∈ seen ++ l → key x = Some (val x)) →
  first_min val seen best →
  ∃ m, py_min_from key best l = Ok m ∧ first_min val (seen ++ l) m.
Proof.
  induction l as [|x l IH]; intros seen best Hkey Hbest.
  - exists best. by rewrite app_nil_r.
  - assert (Hin : best ∈ seen ++ x :: l).
    { destruct Hbest as (pre & post & -> & _). set_solver. }
    cbn [py_min_from]. rewrite (Hkey x) by (rewrite elem_of_app, elem_of_cons; auto).
    rewrite (Hkey best) by done.
    cbn [float_lt mbind result_bind].
    replace (seen ++ x :: l) with ((seen ++ [x]) ++ l) in *
      by by rewrite <-app_assoc.
    apply IH; [done|].
    destruct Hbest as (pre & post & -> & Hpre & Hpost).
    case_bool_decide as Hlt.
    + exists (pre ++ best :: post), []. split; [done|]. split; [|done].
      rewrite Forall_app, Forall_cons. repeat split.
      * eapply Forall_impl; [exact Hpre|]. intros y Hy. simpl in Hy.
        by trans (val best).
      * done.
      * eapply Forall_impl; [exact Hpost|]. intros y Hy. simpl in Hy.
        by eapply Qclt_le_trans.
    + exists pre, (post ++ [x]). split; [by rewrite <-app_assoc|].
      split; [done|]. rewrite Forall_app, Forall_singleton.
      split; [done|]. by apply Qcnot_lt_le.
Qed.

Lemma py_max_from_first {A} (key : A → option float) (val : A → float) l :
  ∀ seen best,
  (∀ x, x ∈ seen ++ l → key x = Some (val x)) →
  first_max val seen best →
  ∃ m, py_max_from key best l = Ok m ∧ first_max val (seen ++ l) m.
Proof.
  induction l as [|x l IH]; intros seen best Hkey Hbest.
  - exists best. by rewrite app_nil_r.
  - assert (Hin : best ∈ seen ++ x :: l).
    { destruct Hbest as (pre & post & -> & _). set_solver. }
    cbn [py_max_from]. rewrite (Hkey x) by (rewrite elem_of_app, elem_of_cons; auto).
    rewrite (Hkey best) by done.
    cbn [float_lt mbind result_bind].
    replace (seen ++ x :: l) with ((seen ++ [x]) ++ l) in *
      by by rewrite <-app_assoc.
    apply IH; [done|].
    destruct Hbest as (pre & post & -> & Hpre & Hpost).
    case_bool_decide as Hlt.
    + exists (pre ++ best :: post), []. split; [done|]. split; [|done].
      rewrite Forall_app, Forall_cons. repeat split.
      * eapply Forall_impl; [exact Hpre|]. intros y Hy. simpl in Hy.
        by trans (val best).
      * done.
      * eapply Forall_impl; [exact Hpost|]. intros y Hy. simpl in Hy.
        by eapply Qcle_lt_trans.
    + exists pre, (post ++ [x]). split; [by rewrite <-app_assoc|].
      split; [done|]. rewrite Forall_app, Forall_singleton.
      split; [done|]. by apply Qcnot_lt_le.
Qed.

Lemma py_min_first {A} (key : A → option float) (val : A → float) x l :
  (∀ y, y ∈ x :: l → key y = Some (val y)) →
  ∃ m, py_min key (x :: l) = Ok m ∧ first_min val (x :: l) m.
Proof.
  intros Hkey. apply (py_min_from_first key val l [x] x Hkey).
  by exists [], [].
Qed.

Lemma py_max_first {A} (key : A → option float) (val : A → float) x l :
  (∀ y, y ∈ x :: l → key y = Some (val y)) →
  ∃ m, py_max key (x :: l) = Ok m ∧ first_max val (x :: l) m.
Proof.
  intros Hkey. apply (py_max_from_first key val l [x] x Hkey).
  by exists [], [].
Qed.

Lemma first_min_elem {A} (val : A → float) l m : first_min val l m → m ∈ l.
Proof. intros (pre & post & -> & _). set_solver. Qed.

Lemma first_max_elem {A} (val : A → float) l m : first_max val l m → m ∈ l.
Proof. intros (pre & post & -> & _). set_solver. Qed.

(** *** [evaluate] *)

Lemma od_get_block_values req code :
  code ∈ block_codes →
  od_get (block_values_of req) code = Some (index_of req code).
Proof.
  unfold block_codes, block_values_of.
  rewrite !elem_of_cons, elem_of_nil.
  intros [->|[->|[->|[->|[]]]]]; cbn [od_get];
    repeat (rewrite decide_False by done); by rewrite decide_True.
Qed.

Lemma total_index_raw_block_values req :
  total_index_raw (EvaluationRequest.block_weights req) (block_values_of req)
  = weighted_total req.
Proof.
  unfold total_index_raw, weighted_total.
  rewrite !od_get_block_values; [done|..];
    unfold block_codes; rewrite !elem_of_cons; auto.
Qed.

Lemma extremal_blocks_first req :
  ∃ w s, extremal_blocks (block_values_of req) = Ok (w, s)
    ∧ first_min (index_of req) block_codes w
    ∧ first_max (index_of req) block_codes s.
Proof.
  destruct (py_min_first (od_get (block_values_of req)) (index_of req)
              "R" ["P"; "O"; "I"]) as (w & Hw & Hmin).
  { intros. by apply od_get_block_values. }
  destruct (py_max_first (od_get (block_values_of req)) (index_of req)
              "R" ["P"; "O"; "I"]) as (s & Hs & Hmax).
  { intros. by apply od_get_block_values. }
  exists w, s. split; [|done].
  unfold extremal_blocks, block_values_of at 1.
  change (od_keys (block_values_of req)) with ("R" :: ["P"; "O"; "I"]).
  by rewrite Hw, Hs.
Qed.

Lemma or_None_block_code code : code ∈ block_codes → or_None code = Some code.
Proof.
  unfold block_codes. rewrite !elem_of_cons, elem_of_nil.
  by intros [->|[->|[->|[->|[]]]]].
Qed.

Lemma group_then_aggregate req :
  Forall recognized (EvaluationRequest.indicators req) →
  group_indicators (EvaluationRequest.indicators req) initial_groups
  = Ok (grouped (EvaluationRequest.indicators req))
  ∧ aggregate (grouped (EvaluationRequest.indicators req)) [] []
    = Ok (block_entries req, block_values_of req).
Proof.
  intros Hall. split.
  - unfold initial_groups. by rewrite group_indicators_Ok.
  - apply aggregate_grouped.
Qed.

Lemma evaluate_Ok req :
  Forall recognized (EvaluationRequest.indicators req) →
  ∃ w s, evaluate req = Ok (closed_result req w s)
    ∧ first_min (index_of req) block_codes w
    ∧ first_max (index_of req) block_codes s.
Proof.
  intros Hall.
  destruct (group_then_aggregate req Hall) as [Hg Ha].
  destruct (extremal_blocks_first req) as (w & s & He & Hmin & Hmax).
  exists w, s. split; [|done].
  unfold evaluate. fold initial_groups. rewrite Hg. cbn [mbind result_bind].
  rewrite Ha. cbn [mbind result_bind]. rewrite He. cbn [mbind result_bind].
  rewrite total_index_raw_block_values.
  rewrite !or_None_block_code
    by eauto using first_min_elem, first_max_elem.
  reflexivity.
Qed.

Lemma evaluate_Raise req pre bad post :
  EvaluationRequest.indicators req = pre ++ bad :: post →
  Forall recognized pre → ¬ recognized bad →
  evaluate req
  = Raise (ValueError ("Noma'lum blok kodi: " +:+ Indicator.block bad)).
Proof.
  intros E Hpre Hbad. unfold evaluate. rewrite E.
  by rewrite group_indicators_Raise.
Qed.

Lemma evaluate_Ok_inv req res :
  evaluate req = Ok res →
  Forall recognized (EvaluationRequest.indicators req)
  ∧ ∃ w s, res = closed_result req w s
      ∧ first_min (index_of req) block_codes w
      ∧ first_max (index_of req) block_codes s.
Proof.
  intros Hev.
  destruct (first_unrecognized (EvaluationRequest.indicators req))
    as [Hall|(pre & bad & post & E & Hpre & Hbad)].
  - split; [done|].
    destruct (evaluate_Ok req Hall) as (w & s & Hws & Hmin & Hmax).
    exists w, s. split; [congruence|done].
  - rewrite (evaluate_Raise req pre bad post E Hpre Hbad) in Hev. discriminate.
Qed.

(** ** Theorems about [normalize] *)

(** C8. For an indicator whose [max_value] equals its [min_value], benefit
    or cost and whatever its raw value, [normalize] returns exactly 0: no
    division by zero, no exception. *)
Theorem normalize_degenerate_bounds (ind : Indicator.t) :
  Indicator.max_value ind = Indicator.min_value ind → normalize ind = Ok 0.
Proof. intros E. unfold normalize. by rewrite decide_True. Qed.

Lemma normalize_degenerate_bounds_witness : normalize degenerate_cost = Ok 0.
Proof. apply normalize_degenerate_bounds. reflexivity. Defined.

(** ** Theorems about [classify_level] *)

(** C5. [classify_level] sends every total to exactly one of four tiers
    by half-open intervals that include their lower bound: below 0.25
    (negative totals included) "Past", in [0.25, 0.50) "O‘rtacha", in
    [0.50, 0.75) "Yuqori", from 0.75 on "Juda yuqori"; 0.25, 0.50 and 0.75
    themselves fall in the second, third and fourth tier. *)
Theorem classify_level_intervals :
  (∀ x : float,
     (classify_level x = "Past" ↔ x < flt 0.25)
     ∧ (classify_level x = "O‘rtacha" ↔ flt 0.25 ≤ x < flt 0.50)
     ∧ (classify_level x = "Yuqori" ↔ flt 0.50 ≤ x < flt 0.75)
     ∧ (classify_level x = "Juda yuqori" ↔ flt 0.75 ≤ x))
  ∧ (∀ x : float, x < 0 → classify_level x = "Past")
  ∧ classify_level (flt 0.249999) = "Past"
  ∧ classify_level (flt 0.25) = "O‘rtacha"
  ∧ classify_level (flt 0.50) = "Yuqori"
  ∧ classify_level (flt 0.75) = "Juda yuqori".
Proof.
  split; [|split; [|by vm_compute]].
  - intros x. unfold classify_level.
    repeat case_decide; repeat split; try discriminate; try reflexivity;
      intros; try qc_order;
      repeat match goal with H : _ ∧ _ |- _ => destruct H end; qc_order.
  - intros x Hx. unfold classify_level. rewrite decide_True; [done|qc_order].
Qed.

(** ** Theorems about [evaluate] *)

(** C4. [evaluate] raises exactly when some indicator's block code is not
    one of R, P, O, I; the exception is the [ValueError] naming the code of
    the first such indicator and no result comes with it.  A request whose
    indicators all carry recognized codes returns a result: no exception
    of any kind is raised. *)
Theorem evaluate_raises_iff_unrecognized (req : EvaluationRequest.t) :
  ((∃ e, evaluate req = Raise e)
   ↔ Exists (λ ind, Indicator.block ind ∉ ["R"; "P"; "O"; "I"])
       (EvaluationRequest.indicators req))
  ∧ (∀ e, evaluate req = Raise e ↔
       ∃ pre bad post,
         EvaluationRequest.indicators req = pre ++ bad :: post
         ∧ Forall recognized pre ∧ ¬ recognized bad
         ∧ e = ValueError ("Noma'lum blok kodi: " +:+ Indicator.block bad))
  ∧ ((∃ res, evaluate req = Ok res)
     ↔ Forall (λ ind, Indicator.block ind ∈ ["R"; "P"; "O"; "I"])
         (EvaluationRequest.indicators req)).
Proof.
  destruct (first_unrecognized (EvaluationRequest.indicators req))
    as [Hall|(pre & bad & post & E & Hpre & Hbad)].
  - destruct (evaluate_Ok req Hall) as (w & s & Hev & _).
    split; [|split].
    + split; [intros [e He]; congruence|].
      intros Hex. apply Exists_exists in Hex as (ind & Hin & Hind).
      rewrite Forall_forall in Hall. destruct Hind. by apply (Hall ind).
    + intros e. split; [congruence|].
      intros (pre & bad & post & E & Hpre & Hbad & _).
      rewrite Forall_forall in Hall. destruct Hbad. apply (Hall bad).
      rewrite E, elem_of_app, elem_of_cons. auto.
    + split; [done|]. eauto.
  - pose proof (evaluate_Raise req pre bad post E Hpre Hbad) as Hev.
    split; [|split].
    + split; [|eauto]. intros _. rewrite E.
      apply Exists_app. right. by apply Exists_cons_hd.
    + intros e. split.
      * intros He. exists pre, bad, post. repeat split; try done. congruence.
      * intros (pre' & bad' & post' & E' & Hpre' & Hbad' & ->).
        by apply (evaluate_Raise req pre' bad' post').
    + split; [intros [res Hres]; congruence|].
      intros Hall. rewrite E in Hall.
      apply Forall_app in Hall as [_ Hall].
      apply Forall_cons in Hall as [Hb _]. by destruct Hbad.
Qed.

(** C10. Whenever [evaluate] returns, [weakest_block] and
    [strongest_block] are both present and each is one of R, P, O, I:
    [block_values] always holds the four blocks, so the empty-dictionary
    branch is never taken. *)
Theorem extremal_blocks_present (req : EvaluationRequest.t)
    (res : EvaluationResult.t) :
  evaluate req = Ok res →
  ∃ w s,
    EvaluationResult.weakest_block res = Some w
    ∧ EvaluationResult.strongest_block res = Some s
    ∧ w ∈ ["R"; "P"; "O"; "I"] ∧ s ∈ ["R"; "P"; "O"; "I"].
Proof.
  intros Hev.
  apply evaluate_Ok_inv in Hev as (_ & w & s & -> & Hmin & Hmax).
  exists w, s. repeat split.
  - by apply first_min_elem in Hmin.
  - by apply first_max_elem in Hmax.
Qed.

Lemma extremal_blocks_present_witness :
  ∃ res w s, evaluate scenario = Ok res
    ∧ EvaluationResult.weakest_block res = Some w
    ∧ EvaluationResult.strongest_block res = Some s
    ∧ w ∈ ["R"; "P"; "O"; "I"] ∧ s ∈ ["R"; "P"; "O"; "I"].
Proof.
  destruct (evaluate scenario) as [res|e] eqn:E;
    [|vm_compute in E; discriminate].
  destruct (extremal_blocks_present scenario res E) as (w & s & H).
  by exists res, w, s.
Defined.

(** C7. The request with one benefit indicator per block (min 0, max 100,
    weight 1; R 80, P 20, O 50, I 0) and block weights 0.25 each yields
    the normalized values 0.8, 0.2, 0.5, 0.0, the overall index 0.375, the
    second tier ("O‘rtacha", medium), weakest block I, strongest block R. *)
Theorem scenario_result :
  ∃ res bR bP bO bI,
    evaluate scenario = Ok res
    ∧ EvaluationResult.blocks res = [bR; bP; bO; bI]
    ∧ BlockIndex.block <$> [bR; bP; bO; bI] = ["R"; "P"; "O"; "I"]
    ∧ BlockIndex.indicators bR !! "r1" = Some (flt 0.8)
    ∧ BlockIndex.indicators bP !! "p1" = Some (flt 0.2)
    ∧ BlockIndex.indicators bO !! "o1" = Some (flt 0.5)
    ∧ BlockIndex.indicators bI !! "i1" = Some (flt 0.0)
    ∧ EvaluationResult.total_index res = flt 0.375
    ∧ EvaluationResult.level res = Some "O‘rtacha"
    ∧ EvaluationResult.weakest_block res = Some "I"
    ∧ EvaluationResult.strongest_block res = Some "R".
Proof.
  destruct (evaluate scenario) as [res|e] eqn:E; vm_compute in E;
    [|discriminate].
  injection E as <-.
  eexists _, _, _, _, _. split; [reflexivity|]. split; [reflexivity|].
  repeat split; float_eq.
Qed.

(** C9. The tier is taken from the rounded overall index, not from the raw
    weighted sum: there is a request whose raw sum lies in [0.2495, 0.25),
    in the first tier by itself, and whose result has [total_index] 0.25
    and the second tier. *)
Theorem level_from_rounded_total :
  ∃ req block_groups block_indices block_values res,
    group_indicators (EvaluationRequest.indicators req)
      [("R", []); ("P", []); ("O", []); ("I", [])] = Ok block_groups
    ∧ aggregate block_groups [] [] = Ok (block_indices, block_values)
    ∧ flt 0.2495
      ≤ total_index_raw (EvaluationRequest.block_weights req) block_values
      < flt 0.25
    ∧ classify_level
        (total_index_raw (EvaluationRequest.block_weights req) block_values)
      = "Past"
    ∧ evaluate req = Ok res
    ∧ EvaluationResult.total_index res = flt 0.25
    ∧ EvaluationResult.level res = Some "O‘rtacha".
Proof.
  assert (Hall : Forall recognized (EvaluationRequest.indicators near_quarter)).
  { repeat constructor; unfold recognized, block_codes;
      rewrite !elem_of_cons; auto. }
  destruct (group_then_aggregate near_quarter Hall) as [Hg Ha].
  destruct (evaluate_Ok near_quarter Hall) as (w & s & Hev & _).
  eexists near_quarter, _, _, _, _.
  split; [exact Hg|]. split; [exact Ha|].
  rewrite total_index_raw_block_values.
  split; [split; by vm_compute|]. split; [by vm_compute|].
  split; [exact Hev|]. split; float_eq.
Qed.

(** ** Bounds *)





Lemma Qcsum_cons x l : Qcsum (x :: l) = x + Qcsum l.
Proof. reflexivity. Qed.



(** *** Rounding *)

Lemma round_half_even_error (x : float) :
  let n := Qnum x in
  let d := Z.pos (Qden x) in
  (- d ≤ 2 * (round_half_even x * d - n) ≤ d)%Z.
Proof.
  intros n d. unfold round_half_even. fold n d.
  pose proof (Z.div_mod n d ltac:(done)) as Hn.
  pose proof (Z.mod_pos_bound n d ltac:(done)) as Hr.
  destruct (Z.compare_spec (2 * (n mod d)) d) as [E|E|E];
    [destruct (Z.even (n / d))|..]; lia.
Qed.


Lemma round_half_even_Q (x : float) :
  (inject_Z (round_half_even x) - x <= 1 # 2)%Q
  ∧ (x - inject_Z (round_half_even x) <= 1 # 2)%Q.
Proof.
  pose proof (round_half_even_error x) as H. cbv zeta in H.
  revert H. generalize (round_half_even x). intros r.
  destruct x as [[n d] c]. unfold Qle, Qminus, Qplus, Qopp, inject_Z.
  cbn [Qnum Qden this]. lia.
Qed.


(** ** Further properties of [normalize] *)






(** ** Further properties of [classify_level] *)

(** X4. [classify_level] is monotone: a larger total never falls in a
    lower tier. *)
Theorem classify_level_monotone (x y : float) :
  x ≤ y →
  (level_rank (classify_level x) ≤ level_rank (classify_level y))%nat.
Proof.
  intros H. unfold classify_level.
  repeat case_decide; try (vm_compute; lia); qc_order.
Qed.

Lemma classify_level_monotone_witness :
  (level_rank (classify_level (flt 0.3))
   ≤ level_rank (classify_level (flt 0.8)))%nat.
Proof. apply classify_level_monotone. by vm_compute. Defined.

(** ** Further properties of [evaluate] *)

Lemma first_min_head {A} (val : A → float) h l m :
  first_min val (h :: l) m → val h ≤ val m → m = h.
Proof.
  intros (pre & post & E & Hpre & _) Hle.
  destruct pre as [|p pre]; [by injection E as ->|].
  injection E as -> ->. apply Forall_cons in Hpre as [Hlt _].
  by apply Qclt_not_le in Hlt.
Qed.

Lemma first_max_head {A} (val : A → float) h l m :
  first_max val (h :: l) m → val m ≤ val h → m = h.
Proof.
  intros (pre & post & E & Hpre & _) Hle.
  destruct pre as [|p pre]; [by injection E as ->|].
  injection E as -> ->. apply Forall_cons in Hpre as [Hlt _].
  by apply Qclt_not_le in Hlt.
Qed.



Lemma elem_of_block_entries req b :
  b ∈ block_entries req →
  ∃ code, code ∈ block_codes
    ∧ b = block_entry code (members code (EvaluationRequest.indicators req)).
Proof.
  unfold block_entries. intros (code & -> & Hin)%list_elem_of_fmap. eauto.
Qed.

(** X5. Every result of [evaluate] carries the request's organisation
    and year unchanged, exactly four block entries with the codes R, P, O,
    I in this order, and a tier label that is [classify_level] of the
    returned [total_index]. *)
Theorem evaluate_result_shape (req : EvaluationRequest.t)
    (res : EvaluationResult.t) :
  evaluate req = Ok res →
  EvaluationResult.tashkilot res = EvaluationRequest.tashkilot req
  ∧ EvaluationResult.yil res = EvaluationRequest.yil req
  ∧ BlockIndex.block <$> EvaluationResult.blocks res = ["R"; "P"; "O"; "I"]
  ∧ EvaluationResult.level res
    = Some (classify_level (EvaluationResult.total_index res)).
Proof.
  intros Hev. by apply evaluate_Ok_inv in Hev as (_ & w & s & -> & _).
Qed.

Lemma evaluate_result_shape_witness :
  ∃ res, evaluate scenario = Ok res
    ∧ EvaluationResult.tashkilot res = None
    ∧ EvaluationResult.yil res = None
    ∧ BlockIndex.block <$> EvaluationResult.blocks res = ["R"; "P"; "O"; "I"]
    ∧ EvaluationResult.level res
      = Some (classify_level (EvaluationResult.total_index res)).
Proof.
  destruct (evaluate scenario) as [res|e] eqn:E;
    [|vm_compute in E; discriminate].
  exists res. split; [reflexivity|].
  exact (evaluate_result_shape scenario res E).
Defined.



(** *** Indicators of weight zero *)

Lemma sums_drop_zero_weight inds :
  weighted_sum (filter (λ ind, Indicator.weight ind ≠ 0) inds)
  = weighted_sum inds
  ∧ weight_total (filter (λ ind, Indicator.weight ind ≠ 0) inds)
    = weight_total inds.
Proof.
  unfold weighted_sum, weight_total.
  induction inds as [|ind inds [IH1 IH2]]; [done|].
  destruct (decide (Indicator.weight ind ≠ 0)) as [Hne|Hz].
  - rewrite filter_cons_True by done.
    rewrite !fmap_cons, !Qcsum_cons. by rewrite IH1, IH2.
  - rewrite filter_cons_False by done.
    apply dec_stable in Hz.
    rewrite !fmap_cons, !Qcsum_cons, IH1, IH2, Hz. split; ring.
Qed.

Lemma category_index_drop_zero_weight inds :
  category_index (filter (λ ind, Indicator.weight ind ≠ 0) inds)
  = category_index inds.
Proof.
  unfold category_index.
  by destruct (sums_drop_zero_weight inds) as [-> ->].
Qed.

Lemma members_filter (P : Indicator.t → Prop) `{!∀ x, Decision (P x)}
    code inds :
  members code (filter P inds) = filter P (members code inds).
Proof.
  unfold members. induction inds as [|ind inds IH]; [done|].
  destruct (decide (P ind)), (decide (Indicator.block ind = code));
    rewrite ?filter_cons_True, ?filter_cons_False by done;
    rewrite ?filter_cons_True, ?filter_cons_False by done;
    by rewrite IH.
Qed.

Lemma first_min_unique {A} (val : A → float) l m m' :
  first_min val l m → first_min val l m' → m = m'.
Proof.
  intros (pre & post & -> & Hpre & Hpost) (pre' & post' & E & Hpre' & Hpost').
  apply app_eq_app in E as [k [[-> E]|[-> E]]]; destruct k as [|x k];
    simpl in E; injection E as ?; subst; try done;
    repeat match goal with
           | H : Forall _ (_ ++ _) |- _ => apply Forall_app in H as [? ?]
           | H : Forall _ (_ :: _) |- _ => apply Forall_cons in H as [? ?]
           end;
    simpl in *;
    match goal with
    | H1 : (?a < ?b)%Qc, H2 : (?b ≤ ?a)%Qc |- _ => by apply Qclt_not_le in H1
    end.
Qed.

Lemma first_max_unique {A} (val : A → float) l m m' :
  first_max val l m → first_max val l m' → m = m'.
Proof.
  intros (pre & post & -> & Hpre & Hpost) (pre' & post' & E & Hpre' & Hpost').
  apply app_eq_app in E as [k [[-> E]|[-> E]]]; destruct k as [|x k];
    simpl in E; injection E as ?; subst; try done;
    repeat match goal with
           | H : Forall _ (_ ++ _) |- _ => apply Forall_app in H as [? ?]
           | H : Forall _ (_ :: _) |- _ => apply Forall_cons in H as [? ?]
           end;
    simpl in *;
    match goal with
    | H1 : (?a < ?b)%Qc, H2 : (?b ≤ ?a)%Qc |- _ => by apply Qclt_not_le in H1
    end.
Qed.

Lemma first_min_ext {A} (val val' : A → float) l m :
  (∀ x, val x = val' x) → first_min val l m → first_min val' l m.
Proof.
  intros Hext (pre & post & -> & Hpre & Hpost). exists pre, post.
  split; [done|].
  split; (eapply Forall_impl; [eassumption|]); intros x; simpl;
    by rewrite !Hext.
Qed.

Lemma first_max_ext {A} (val val' : A → float) l m :
  (∀ x, val x = val' x) → first_max val l m → first_max val' l m.
Proof.
  intros Hext (pre & post & -> & Hpre & Hpost). exists pre, post.
  split; [done|].
  split; (eapply Forall_impl; [eassumption|]); intros x; simpl;
    by rewrite !Hext.
Qed.

(** X12. Indicators of weight zero do not count: removing them from a
    request leaves the total, the tier, the four block values and the
    weakest and strongest blocks as they were (only the mappings of
    normalized values lose their entries). *)
Theorem zero_weight_indicators_ignored (req : EvaluationRequest.t)
    (res : EvaluationResult.t) :
  evaluate req = Ok res →
  ∃ res',
    evaluate (with_indicators req
                (filter (λ ind, Indicator.weight ind ≠ 0)
                   (EvaluationRequest.indicators req))) = Ok res'
    ∧ EvaluationResult.total_index res' = EvaluationResult.total_index res
    ∧ EvaluationResult.level res' = EvaluationResult.level res
    ∧ BlockIndex.value <$> EvaluationResult.blocks res'
      = BlockIndex.value <$> EvaluationResult.blocks res
    ∧ EvaluationResult.weakest_block res' = EvaluationResult.weakest_block res
    ∧ EvaluationResult.strongest_block res'
      = EvaluationResult.strongest_block res.
Proof.
  intros Hev.
  apply evaluate_Ok_inv in Hev as (Hall & w & s & -> & Hmin & Hmax).
  set (req' := with_indicators req
                 (filter (λ ind, Indicator.weight ind ≠ 0)
                    (EvaluationRequest.indicators req))).
  assert (Hidx : ∀ code, index_of req' code = index_of req code).
  { intros code. unfold index_of, req'. cbn [with_indicators
      EvaluationRequest.indicators].
    by rewrite members_filter, category_index_drop_zero_weight. }
  assert (Htot : weighted_total req' = weighted_total req).
  { unfold weighted_total. cbv zeta. by rewrite !Hidx. }
  destruct (evaluate_Ok req') as (w' & s' & Hev' & Hmin' & Hmax').
  { unfold req'. cbn [with_indicators EvaluationRequest.indicators].
    rewrite Forall_forall in *.
    intros ind [_ Hin]%list_elem_of_filter. by apply Hall. }
  assert (w' = w) as ->
    by (eapply first_min_unique; [eapply first_min_ext|]; eauto).
  assert (s' = s) as ->
    by (eapply first_max_unique; [eapply first_max_ext|]; eauto).
  eexists. split; [exact Hev'|]. unfold closed_result.
  cbn [EvaluationResult.total_index EvaluationResult.level
       EvaluationResult.blocks EvaluationResult.weakest_block
       EvaluationResult.strongest_block].
  rewrite Htot. repeat split.
  unfold block_entries, block_codes, block_entry.
  cbn [fmap list_fmap BlockIndex.value].
  fold (index_of req' "R") (index_of req' "P") (index_of req' "O")
    (index_of req' "I") (index_of req "R") (index_of req "P")
    (index_of req "O") (index_of req "I").
  by rewrite !Hidx.
Qed.

(** A block R of one weighted and one unweighted indicator. *)
Lemma zero_weight_indicators_ignored_witness :
  ∃ res res',
    evaluate unweighted_extra = Ok res
    ∧ evaluate (with_indicators unweighted_extra
                  (filter (λ ind, Indicator.weight ind ≠ 0)
                     (EvaluationRequest.indicators unweighted_extra)))
      = Ok res'
    ∧ EvaluationResult.total_index res' = EvaluationResult.total_index res.
Proof.
  destruct (evaluate unweighted_extra) as [res|e] eqn:E;
    [|vm_compute in E; discriminate].
  destruct (zero_weight_indicators_ignored unweighted_extra res E)
    as (res' & Hev' & Ht & _).
  exists res, res'. split; [reflexivity|]. split; [exact Hev'|exact Ht].
Defined.

(** ** The callers in [main.py] *)

Lemma endpoint_block_values_closed req w s :
  endpoint_block_values (closed_result req w s)
  = <["I" := py_round (index_of req "I") 3]>
      (<["O" := py_round (index_of req "O") 3]>
         (<["P" := py_round (index_of req "P") 3]>
            (<["R" := py_round (index_of req "R") 3]> ∅))).
Proof. reflexivity. Qed.

Lemma endpoint_block_values_lookup req w s code :
  code ∈ block_codes →
  endpoint_block_values (closed_result req w s) !! code
  = Some (py_round (index_of req code) 3).
Proof.
  rewrite endpoint_block_values_closed. unfold block_codes.
  rewrite !elem_of_cons, elem_of_nil.
  intros [->|[->|[->|[->|[]]]]];
    repeat (rewrite lookup_insert_ne by done); by rewrite lookup_insert_eq.
Qed.

(** X15. The exported sheet is rectangular: the header and every data
    row have 8 cells; there is one data row per stored evaluation, in the
    order given, and the k-th carries the number k in its first cell. *)
Theorem export_sheet_shape (evaluations : list Evaluation.t) :
  length (export_sheet evaluations) = S (length evaluations)
  ∧ Forall (λ row, length row = 8%nat) (export_sheet evaluations)
  ∧ ∀ (i : nat) row, evaluations !! i = Some row →
      export_sheet evaluations !! S i
      = Some (export_row (Z.of_nat (S i)) row)
      ∧ head (export_row (Z.of_nat (S i)) row) = Some (CellInt (Z.of_nat (S i))).
Proof.
  unfold export_sheet. split; [|split].
  - cbn [length]. by rewrite length_imap.
  - constructor; [done|]. apply Forall_forall. intros row.
    rewrite elem_of_lookup_imap. by intros (i & r & -> & _).
  - intros i row Hi. split; [|done].
    change (imap (λ i row, export_row (Z.of_nat i + 1) row) evaluations !! i
            = Some (export_row (Z.of_nat (S i)) row)).
    rewrite list_lookup_imap, Hi. cbn [fmap option_fmap option_map].
    do 2 f_equal. lia.
Qed.

Lemma NoDup_fmap_eq {A B} (f : A → B) (l : list A) x y :
  NoDup (f <$> l) → x ∈ l → y ∈ l → f x = f y → x = y.
Proof.
  induction l as [|a l IH]; [by intros _ ?%elem_of_nil|].
  rewrite fmap_cons, NoDup_cons.
  intros [Ha Hnd] [->|Hx]%elem_of_cons [->|Hy]%elem_of_cons Hf; auto.
  - destruct Ha. rewrite Hf. by apply list_elem_of_fmap_2.
  - destruct Ha. rewrite <-Hf. by apply list_elem_of_fmap_2.
Qed.

(** X16. With the identifiers of a request distinct, each indicator is
    reported in the mapping of its own block, with its normalized value,
    and in the mapping of no other block. *)
Theorem indicator_reported_in_own_block (req : EvaluationRequest.t)
    (res : EvaluationResult.t) (ind : Indicator.t) (z : float)
    (b : BlockIndex.t) :
  evaluate req = Ok res →
  NoDup (Indicator.id <$> EvaluationRequest.indicators req) →
  ind ∈ EvaluationRequest.indicators req →
  normalize ind = Ok z →
  b ∈ EvaluationResult.blocks res →
  BlockIndex.indicators b !! Indicator.id ind
  = if decide (BlockIndex.block b = Indicator.block ind) then Some z else None.
Proof.
  intros Hev Hnd Hin Hz Hb.
  apply evaluate_Ok_inv in Hev as (_ & w & s & -> & _).
  change (b ∈ block_entries req) in Hb.
  apply elem_of_block_entries in Hb as (code & _ & ->).
  rewrite normalize_Ok in Hz. injection Hz as <-.
  unfold block_entry. cbn [BlockIndex.indicators BlockIndex.block].
  case_decide as Hcode.
  - apply norm_map_lookup; [by apply members_NoDup|].
    unfold members. by apply list_elem_of_filter.
  - rewrite norm_map_lookup_fresh, lookup_empty; [done|].
    intros (j & Hid & Hj)%list_elem_of_fmap.
    unfold members in Hj. apply list_elem_of_filter in Hj as [Hblock Hj].
    apply (NoDup_fmap_eq _ _ _ _ Hnd Hin Hj) in Hid. by subst j.
Qed.

Lemma indicator_reported_in_own_block_witness :
  ∃ res, evaluate scenario = Ok res
    ∧ ∀ b, b ∈ EvaluationResult.blocks res →
        BlockIndex.indicators b !! "r1"
        = if decide (BlockIndex.block b = "R")
          then Some (normalized scenario_r1) else None.
Proof.
  destruct (evaluate scenario) as [res|e] eqn:E;
    [|vm_compute in E; discriminate].
  exists res. split; [reflexivity|]. intros b Hb.
  apply (indicator_reported_in_own_block scenario res scenario_r1
           (normalized scenario_r1) b E).
  - apply (bool_decide_unpack _). by vm_compute.
  - by left.
  - apply normalize_Ok.
  - exact Hb.
Defined.

(** X13. The dictionary [evaluate_endpoint] stores with a result holds
    exactly the keys R, P, O, I, each with the value of that block's
    entry in the result. *)
Theorem endpoint_block_values_spec (req : EvaluationRequest.t)
    (res : EvaluationResult.t) :
  evaluate req = Ok res →
  ∃ bR bP bO bI,
    EvaluationResult.blocks res = [bR; bP; bO; bI]
    ∧ (∀ code b, (code, b) ∈ [("R", bR); ("P", bP); ("O", bO); ("I", bI)] →
         BlockIndex.block b = code
         ∧ endpoint_block_values res !! code = Some (BlockIndex.value b))
    ∧ (∀ key, key ∉ ["R"; "P"; "O"; "I"] →
         endpoint_block_values res !! key = None).
Proof.
  intros Hev. apply evaluate_Ok_inv in Hev as (_ & w & s & -> & _).
  eexists _, _, _, _. split; [reflexivity|]. split.
  - intros code b Hin. rewrite !elem_of_cons, elem_of_nil in Hin.
    destruct Hin as [E|[E|[E|[E|[]]]]]; injection E as -> ->;
      (split; [reflexivity|]);
      rewrite endpoint_block_values_lookup
        by (unfold block_codes; rewrite !elem_of_cons; auto);
      reflexivity.
  - intros key Hkey. rewrite endpoint_block_values_closed.
    rewrite !not_elem_of_cons in Hkey. destruct Hkey as (? & ? & ? & ? & _).
    by rewrite !lookup_insert_ne, lookup_empty.
Qed.

Lemma endpoint_block_values_spec_witness :
  ∃ res bR bP bO bI,
    evaluate scenario = Ok res
    ∧ EvaluationResult.blocks res = [bR; bP; bO; bI]
    ∧ endpoint_block_values res !! "O" = Some (BlockIndex.value bO).
Proof.
  destruct (evaluate scenario) as [res|e] eqn:E;
    [|vm_compute in E; discriminate].
  destruct (endpoint_block_values_spec scenario res E)
    as (bR & bP & bO & bI & Hb & Hin & _).
  exists res, bR, bP, bO, bI. split; [reflexivity|]. split; [exact Hb|].
  apply (Hin "O" bO). rewrite !elem_of_cons. auto.
Defined.

(** X14. The spreadsheet row of a result stored by [evaluate_endpoint]:
    the row number, the organisation (empty when absent), the year (empty
    when absent or 0), the result's total and the values of its four
    block entries in the order R, P, O, I; no block cell is left empty. *)
Theorem export_row_of_result (req : EvaluationRequest.t)
    (res : EvaluationResult.t) (idx : Z) :
  evaluate req = Ok res →
  ∃ bR bP bO bI,
    EvaluationResult.blocks res = [bR; bP; bO; bI]
    ∧ BlockIndex.block <$> [bR; bP; bO; bI] = ["R"; "P"; "O"; "I"]
    ∧ export_row idx (db_obj res)
      = [ CellInt idx;
          CellStr (default "" (EvaluationRequest.tashkilot req));
          match EvaluationRequest.yil req with
          | Some y => if decide (y = 0%Z) then CellStr "" else CellInt y
          | None => CellStr ""
          end;
          CellFloat (EvaluationResult.total_index res);
          CellFloat (BlockIndex.value bR);
          CellFloat (BlockIndex.value bP);
          CellFloat (BlockIndex.value bO);
          CellFloat (BlockIndex.value bI) ].
Proof.
  intros Hev. apply evaluate_Ok_inv in Hev as (_ & w & s & -> & _).
  eexists _, _, _, _. split; [reflexivity|]. split; [reflexivity|].
  unfold export_row, db_obj, block_cell.
  cbn [Evaluation.block_values Evaluation.tashkilot Evaluation.yil
       Evaluation.total_index default].
  unfold id. rewrite !lookup_fmap.
  rewrite !endpoint_block_values_lookup
    by (unfold block_codes; rewrite !elem_of_cons; auto).
  reflexivity.
Qed.

Lemma export_row_of_result_witness :
  ∃ res bR bP bO bI,
    evaluate scenario = Ok res
    ∧ EvaluationResult.blocks res = [bR; bP; bO; bI]
    ∧ export_row 1 (db_obj res)
      = [ CellInt 1; CellStr ""; CellStr "";
          CellFloat (EvaluationResult.total_index res);
          CellFloat (BlockIndex.value bR);
          CellFloat (BlockIndex.value bP);
          CellFloat (BlockIndex.value bO);
          CellFloat (BlockIndex.value bI) ].
Proof.
  destruct (evaluate scenario) as [res|e] eqn:E;
    [|vm_compute in E; discriminate].
  destruct (export_row_of_result scenario res 1 E)
    as (bR & bP & bO & bI & Hb & _ & Hrow).
  exists res, bR, bP, bO, bI. split; [reflexivity|]. split; [exact Hb|].
  exact Hrow.
Defined.

(** ** The embedding on doubles: auxiliary facts *)

Section Doubles.
Import F64 F64Forms.

(** *** The order of the doubles *)

Ltac float_order :=
  unfold ltb, leb, is_nan, SFltb, SFleb, SFcompare;
  repeat match goal with
         | x : spec_float |- _ => destruct x as [[]|[]| |[] ? ?]
         end;
  try done;
  repeat match goal with
         | |- context [Z.compare ?a ?b] => destruct (Z.compare_spec a b)
         | |- context [Pos.compare_cont Eq ?a ?b] =>
             change (Pos.compare_cont Eq a b) with (Pos.compare a b);
             destruct (Pos.compare_spec a b)
         end;
  simpl; try done; lia.

Lemma ltb_trans (x y z : float) :
  ltb x y = true → ltb y z = true → ltb x z = true.
Proof. float_order. Qed.

Lemma ltb_leb_trans (x y z : float) :
  ltb x y = true → leb y z = true → ltb x z = true.
Proof. float_order. Qed.

Lemma leb_ltb_trans (x y z : float) :
  leb x y = true → ltb y z = true → ltb x z = true.
Proof. float_order. Qed.

Lemma not_ltb_leb (x y : float) :
  is_nan x = false → is_nan y = false → ltb x y = false → leb y x = true.
Proof. float_order. Qed.

Lemma ltb_leb (x y : float) : ltb x y = true → leb x y = true.
Proof. float_order. Qed.

Lemma leb_refl (x : float) : is_nan x = false → leb x x = true.
Proof. float_order. Qed.

Lemma ltb_not_leb (x y : float) : ltb x y = true → leb y x = false.
Proof. float_order. Qed.

(** *** The scans behind [min] and [max] *)

Lemma py_min_from_first_f64 {A} (key : A → option float) (val : A → float) l :
  ∀ seen best,
  (∀ x, x ∈ seen ++ l → key x = Some (val x) ∧ is_nan (val x) = false) →
  first_min val seen best →
  ∃ m, py_min_from key best l = Ok m ∧ first_min val (seen ++ l) m.
Proof.
  induction l as [|x l IH]; intros seen best Hkey Hbest.
  - exists best. by rewrite app_nil_r.
  - assert (Hin : best ∈ seen ++ x :: l).
    { destruct Hbest as (pre & post & -> & _).
      rewrite !elem_of_app, elem_of_cons. auto. }
    assert (Hx : x ∈ seen ++ x :: l)
      by (rewrite elem_of_app, elem_of_cons; auto).
    destruct (Hkey x Hx) as [Ekx Hnx]. destruct (Hkey best Hin) as [Ekb Hnb].
    cbn [py_min_from]. rewrite Ekx, Ekb. cbn [float_lt mbind result_bind].
    replace (seen ++ x :: l) with ((seen ++ [x]) ++ l) in *
      by by rewrite <-app_assoc.
    apply IH; [done|].
    destruct Hbest as (pre & post & -> & Hpre & Hpost).
    destruct (ltb (val x) (val best)) eqn:Hlt.
    + exists (pre ++ best :: post), []. split; [done|]. split; [|done].
      rewrite Forall_app, Forall_cons. repeat split.
      * eapply Forall_impl; [exact Hpre|]. intros y Hy. simpl in Hy.
        by eapply ltb_trans.
      * done.
      * eapply Forall_impl; [exact Hpost|]. intros y Hy. simpl in Hy.
        by eapply ltb_leb_trans.
    + exists pre, (post ++ [x]). split; [by rewrite <-app_assoc|].
      split; [done|]. rewrite Forall_app, Forall_singleton.
      split; [done|]. by apply not_ltb_leb.
Qed.

Lemma py_max_from_first_f64 {A} (key : A → option float) (val : A → float) l :
  ∀ seen best,
  (∀ x, x ∈ seen ++ l → key x = Some (val x) ∧ is_nan (val x) = false) →
  first_max val seen best →
  ∃ m, py_max_from key best l = Ok m ∧ first_max val (seen ++ l) m.
Proof.
  induction l as [|x l IH]; intros seen best Hkey Hbest.
  - exists best. by rewrite app_nil_r.
  - assert (Hin : best ∈ seen ++ x :: l).
    { destruct Hbest as (pre & post & -> & _).
      rewrite !elem_of_app, elem_of_cons. auto. }
    assert (Hx : x ∈ seen ++ x :: l)
      by (rewrite elem_of_app, elem_of_cons; auto).
    destruct (Hkey x Hx) as [Ekx Hnx]. destruct (Hkey best Hin) as [Ekb Hnb].
    cbn [py_max_from]. rewrite Ekx, Ekb. cbn [float_lt mbind result_bind].
    replace (seen ++ x :: l) with ((seen ++ [x]) ++ l) in *
      by by rewrite <-app_assoc.
    apply IH; [done|].
    destruct Hbest as (pre & post & -> & Hpre & Hpost).
    destruct (ltb (val best) (val x)) eqn:Hlt.
    + exists (pre ++ best :: post), []. split; [done|]. split; [|done].
      rewrite Forall_app, Forall_cons. repeat split.
      * eapply Forall_impl; [exact Hpre|]. intros y Hy. simpl in Hy.
        by eapply ltb_trans.
      * done.
      * eapply Forall_impl; [exact Hpost|]. intros y Hy. simpl in Hy.
        by eapply leb_ltb_trans.
    + exists pre, (post ++ [x]). split; [by rewrite <-app_assoc|].
      split; [done|]. rewrite Forall_app, Forall_singleton.
      split; [done|]. by apply not_ltb_leb.
Qed.

Lemma py_min_from_elem {A} (key : A → option float) l : ∀ (best m : A),
  py_min_from key best l = Ok m → m ∈ best :: l.
Proof.
  induction l as [|x l IH]; intros best m; cbn [py_min_from].
  - intros [= ->]. by left.
  - destruct (float_lt (key x) (key best)) as [b|e]; [|done].
    cbn [mbind result_bind]. intros Hm%IH.
    rewrite !elem_of_cons in *. destruct b; tauto.
Qed.

Lemma py_max_from_elem {A} (key : A → option float) l : ∀ (best m : A),
  py_max_from key best l = Ok m → m ∈ best :: l.
Proof.
  induction l as [|x l IH]; intros best m; cbn [py_max_from].
  - intros [= ->]. by left.
  - destruct (float_lt (key best) (key x)) as [b|e]; [|done].
    cbn [mbind result_bind]. intros Hm%IH.
    rewrite !elem_of_cons in *. destruct b; tauto.
Qed.

(** *** Grouping *)

Lemma recognized_cases_f64 ind :
  recognized ind ↔
  Indicator.block ind = "R" ∨ Indicator.block ind = "P"
  ∨ Indicator.block ind = "O" ∨ Indicator.block ind = "I".
Proof.
  unfold recognized, block_codes.
  rewrite !elem_of_cons, elem_of_nil. tauto.
Qed.

Lemma members_cons_eq_f64 code ind inds :
  Indicator.block ind = code →
  members code (ind :: inds) = ind :: members code inds.
Proof. intros. unfold members. by rewrite filter_cons_True. Qed.

Lemma members_cons_ne_f64 code ind inds :
  Indicator.block ind ≠ code → members code (ind :: inds) = members code inds.
Proof. intros. unfold members. by rewrite filter_cons_False. Qed.

Lemma group_indicators_Ok_f64 inds : ∀ r p o i,
  Forall recognized inds →
  group_indicators inds [("R", r); ("P", p); ("O", o); ("I", i)]
  = Ok [("R", r ++ members "R" inds); ("P", p ++ members "P" inds);
        ("O", o ++ members "O" inds); ("I", i ++ members "I" inds)].
Proof.
  induction inds as [|ind inds IH]; intros r p o i Hall.
  - unfold members. simpl. by rewrite !app_nil_r.
  - apply Forall_cons in Hall as [Hind Hall].
    apply recognized_cases_f64 in Hind.
    destruct Hind as [E|[E|[E|E]]]; cbn [group_indicators od_get od_set];
      rewrite E; repeat (rewrite decide_False by done);
      rewrite decide_True by done; cbn [od_set];
      repeat (rewrite decide_False by done);
      rewrite ?decide_True by done; rewrite IH by done;
      rewrite (members_cons_eq_f64 _ ind _ E);
      rewrite !(members_cons_ne_f64 _ ind) by (by rewrite E);
      by rewrite <-app_assoc.
Qed.

Lemma group_indicators_Raise_f64 pre bad post : ∀ r p o i,
  Forall recognized pre → ¬ recognized bad →
  group_indicators (pre ++ bad :: post) [("R", r); ("P", p); ("O", o); ("I", i)]
  = Raise (ValueError ("Noma'lum blok kodi: " +:+ Indicator.block bad)).
Proof.
  induction pre as [|ind pre IH]; intros r p o i Hall Hbad.
  - rewrite recognized_cases_f64 in Hbad.
    cbn [app group_indicators od_get].
    repeat (rewrite decide_False by (intros E; apply Hbad; auto)).
    reflexivity.
  - apply Forall_cons in Hall as [Hind Hall].
    apply recognized_cases_f64 in Hind.
    destruct Hind as [E|[E|[E|E]]];
      cbn [app group_indicators od_get od_set];
      rewrite E; repeat (rewrite decide_False by done);
      rewrite decide_True by done; cbn [od_set];
      repeat (rewrite decide_False by done);
      rewrite ?decide_True by done; by apply IH.
Qed.

Lemma first_unrecognized_f64 inds :
  Forall recognized inds
  ∨ ∃ pre bad post, inds = pre ++ bad :: post
      ∧ Forall recognized pre ∧ ¬ recognized bad.
Proof.
  induction inds as [|ind inds IH]; [by left|].
  destruct (decide (recognized ind)) as [Hind|Hind].
  - destruct IH as [Hall|(pre & bad & post & -> & Hpre & Hbad)].
    + left. by constructor.
    + right. exists (ind :: pre), bad, post. repeat split; [by constructor|done].
  - right. exists [], ind, inds. by repeat split.
Qed.

(** *** Aggregation *)

Lemma normalize_inv ind z : normalize ind = Ok z → z = normalized ind.
Proof.
  unfold normalize, normalized, float_div, clamp01.
  destruct (eqb _ _); [by intros [= <-]|].
  destruct (is_zero _); [done|]. cbn [mbind result_bind]. by intros [= <-].
Qed.

Lemma fsum_snoc l x : fsum (l ++ [x]) = add (fsum l) x.
Proof. unfold fsum. by rewrite foldl_app. Qed.

Lemma accumulate_inv inds : ∀ done m s w r,
  m = norm_map done ∅ → s = block_sum done → w = weight_sum done →
  accumulate inds m s w = Ok r →
  Forall (λ ind, normalize ind = Ok (normalized ind)) inds
  ∧ r = (norm_map (done ++ inds) ∅, block_sum (done ++ inds),
         weight_sum (done ++ inds)).
Proof.
  induction inds as [|ind inds IH]; intros done m s w r -> -> ->.
  - cbn [accumulate]. intros [= <-]. by rewrite app_nil_r.
  - cbn [accumulate]. destruct (normalize ind) as [z|e] eqn:Hz; [|done].
    cbn [mbind result_bind]. pose proof (normalize_inv _ _ Hz) as ->.
    intros Hr. apply (IH (done ++ [ind])) in Hr.
    + rewrite <-app_assoc in Hr. destruct Hr as [Hall ->].
      split; [by constructor|done].
    + unfold norm_map. by rewrite foldl_app.
    + unfold block_sum, fsum. by rewrite fmap_app, foldl_app.
    + unfold weight_sum, fsum. by rewrite fmap_app, foldl_app.
Qed.

Lemma ltb_zero_not_zero (x : float) : ltb zero x = true → is_zero x = false.
Proof. by destruct x as [[]|[]| |[] ? ?]. Qed.

Lemma aggregate_cons_inv code inds rest bis bvs r :
  aggregate ((code, inds) :: rest) bis bvs = Ok r →
  Forall (λ ind, normalize ind = Ok (normalized ind)) inds
  ∧ aggregate rest (bis ++ [block_entry code inds])
      (od_set bvs code (category_index inds)) = Ok r.
Proof.
  destruct inds as [|ind inds]; [by split|].
  cbn [aggregate].
  destruct (accumulate (ind :: inds) ∅ zero zero) as [[[m s] w]|e] eqn:Ha;
    [|done].
  apply (accumulate_inv _ []) in Ha as [Hall [= -> -> ->]]; [|done..].
  cbn [mbind result_bind app]. unfold block_entry, category_index.
  destruct (ltb zero (weight_sum (ind :: inds))) eqn:Hpos.
  - unfold float_div. rewrite (ltb_zero_not_zero _ Hpos).
    cbn [mbind result_bind]. by split.
  - cbn [mbind result_bind]. by split.
Qed.

Lemma aggregate_grouped_inv inds r :
  aggregate (grouped inds) [] [] = Ok r →
  r = ([block_entry "R" (members "R" inds); block_entry "P" (members "P" inds);
        block_entry "O" (members "O" inds); block_entry "I" (members "I" inds)],
       [("R", category_index (members "R" inds));
        ("P", category_index (members "P" inds));
        ("O", category_index (members "O" inds));
        ("I", category_index (members "I" inds))]).
Proof.
  unfold grouped. intros H.
  apply aggregate_cons_inv in H as [_ H]. apply aggregate_cons_inv in H as [_ H].
  apply aggregate_cons_inv in H as [_ H]. apply aggregate_cons_inv in H as [_ H].
  cbn [aggregate od_set app] in H.
  repeat (rewrite decide_False in H by done). by injection H as <-.
Qed.

(** *** [evaluate] *)

Lemma od_get_block_values_f64 req code :
  code ∈ block_codes →
  od_get (block_values_of req) code = Some (index_of req code).
Proof.
  unfold block_codes, block_values_of.
  rewrite !elem_of_cons, elem_of_nil.
  intros [->|[->|[->|[->|[]]]]]; cbn [od_get];
    repeat (rewrite decide_False by done); by rewrite decide_True.
Qed.

Lemma total_index_raw_block_values_f64 req :
  total_index_raw (EvaluationRequest.block_weights req) (block_values_of req)
  = weighted_total req.
Proof.
  unfold total_index_raw, weighted_total.
  rewrite !od_get_block_values_f64; [done|..];
    unfold block_codes; rewrite !elem_of_cons; auto.
Qed.

Lemma extremal_blocks_elem req w s :
  extremal_blocks (block_values_of req) = Ok (w, s) →
  w ∈ block_codes ∧ s ∈ block_codes.
Proof.
  unfold extremal_blocks, block_values_of at 1.
  change (od_keys (block_values_of req)) with ("R" :: ["P"; "O"; "I"]).
  cbn [py_min py_max].
  destruct (py_min_from _ _ _) as [w'|e] eqn:Hw; [|done].
  cbn [mbind result_bind].
  destruct (py_max_from _ _ _) as [s'|e] eqn:Hs; [|done].
  cbn [mbind result_bind]. intros [= <- <-].
  split; [by apply py_min_from_elem in Hw|by apply py_max_from_elem in Hs].
Qed.

Lemma evaluate_Ok_inv_f64 req res :
  evaluate req = Ok res →
  Forall recognized (EvaluationRequest.indicators req)
  ∧ group_indicators (EvaluationRequest.indicators req)
      [("R", []); ("P", []); ("O", []); ("I", [])]
    = Ok (grouped (EvaluationRequest.indicators req))
  ∧ aggregate (grouped (EvaluationRequest.indicators req)) [] []
    = Ok (block_entries req, block_values_of req)
  ∧ ∃ w s, extremal_blocks (block_values_of req) = Ok (w, s)
      ∧ res = closed_result req w s.
Proof.
  unfold evaluate.
  destruct (first_unrecognized_f64 (EvaluationRequest.indicators req))
    as [Hall|(pre & bad & post & E & Hpre & Hbad)].
  - rewrite (group_indicators_Ok_f64 _ [] [] [] [] Hall).
    change (Ok [("R", [] ++ members "R" (EvaluationRequest.indicators req));
                ("P", [] ++ members "P" (EvaluationRequest.indicators req));
                ("O", [] ++ members "O" (EvaluationRequest.indicators req));
                ("I", [] ++ members "I" (EvaluationRequest.indicators req))])
      with (Ok (grouped (EvaluationRequest.indicators req))).
    cbn [mbind result_bind].
    destruct (aggregate (grouped (EvaluationRequest.indicators req)) [] [])
      as [r|e] eqn:Ha; [|done].
    pose proof (aggregate_grouped_inv _ _ Ha) as ->.
    cbn [mbind result_bind].
    change (extremal_blocks _) with (extremal_blocks (block_values_of req)).
    destruct (extremal_blocks (block_values_of req)) as [[w s]|e] eqn:He;
      [|done].
    cbn [mbind result_bind]. intros [= <-].
    destruct (extremal_blocks_elem _ _ _ He) as [Hw Hs].
    repeat split; try done. exists w, s. split; [done|].
    unfold closed_result.
    change (total_index_raw _ _)
      with (total_index_raw (EvaluationRequest.block_weights req)
              (block_values_of req)).
    by rewrite total_index_raw_block_values_f64, !or_None_block_code.
  - rewrite E, (group_indicators_Raise_f64 _ _ _ [] [] [] [] Hpre Hbad). done.
Qed.

(** *** Rounding *)

Lemma round_half_even_tie (y : Qc) :
  (inject_Z (round_half_even y) - y == 1 # 2
   ∨ y - inject_Z (round_half_even y) == 1 # 2)%Q →
  Z.even (round_half_even y) = true.
Proof.
  unfold round_half_even.
  pose proof (Z.div_mod (Qnum y) (Z.pos (Qden y)) ltac:(done)) as Hn.
  pose proof (Z.mod_pos_bound (Qnum y) (Z.pos (Qden y)) ltac:(done)) as Hr.
  revert Hn Hr.
  generalize (Qnum y / Z.pos (Qden y))%Z, (Qnum y mod Z.pos (Qden y))%Z.
  destruct y as [[n d] c]. cbn [this Qnum Qden]. intros f rm Hn Hr.
  unfold Qeq, Qminus, Qplus, Qopp, inject_Z. cbn [Qnum Qden].
  destruct (Z.compare_spec (2 * rm) (Z.pos d)) as [E|E|E].
  - intros _. destruct (Z.even f) eqn:Hf; [done|].
    rewrite Z.even_add, Hf. reflexivity.
  - intros [H|H]; lia.
  - intros [H|H]; lia.
Qed.

Lemma Qc_minus_inject_l (k : Z) (y : Qc) :
  (this (Q2Qc (inject_Z k) - y)%Qc == inject_Z k - y)%Q.
Proof.
  unfold Qcminus, Qcplus, Qcopp. cbn [this Q2Qc].
  by rewrite !Qred_correct.
Qed.

Lemma Qc_minus_inject_r (k : Z) (y : Qc) :
  (this (y - Q2Qc (inject_Z k))%Qc == y - inject_Z k)%Q.
Proof.
  unfold Qcminus, Qcplus, Qcopp. cbn [this Q2Qc].
  by rewrite !Qred_correct.
Qed.

Lemma Qc_half : (this (Q2Qc (1 # 2)) == 1 # 2)%Q.
Proof. reflexivity. Qed.

Lemma round_half_even_near (y : Qc) :
  (Q2Qc (inject_Z (round_half_even y)) - y ≤ Q2Qc (1 # 2))%Qc
  ∧ (y - Q2Qc (inject_Z (round_half_even y)) ≤ Q2Qc (1 # 2))%Qc
  ∧ ((Q2Qc (inject_Z (round_half_even y)) - y = Q2Qc (1 # 2)
      ∨ y - Q2Qc (inject_Z (round_half_even y)) = Q2Qc (1 # 2))%Qc →
     Z.even (round_half_even y) = true).
Proof.
  destruct (round_half_even_Q y) as [Hu Hl].
  pose proof (round_half_even_tie y) as Ht.
  revert Hu Hl Ht. generalize (round_half_even y). intros k Hu Hl Ht.
  split; [|split].
  - unfold Qcle. by rewrite Qc_minus_inject_l, Qc_half.
  - unfold Qcle. by rewrite Qc_minus_inject_r, Qc_half.
  - intros [H|H]; apply Qc_eq_Qeq in H; apply Ht.
    + left. by rewrite <-Qc_minus_inject_l, H.
    + right. by rewrite <-Qc_minus_inject_r, H.
Qed.

Lemma py_round_rounds_to (x : float) (ndigits : nat) :
  rounds_to ndigits x (py_round x ndigits).
Proof.
  destruct x as [s|s| |s m e]; [exact eq_refl..|].
  unfold rounds_to, py_round. lazy zeta.
  generalize (exact (S754_finite s m e)
              * Q2Qc (Z.pos (Z.to_pos (10 ^ Z.of_nat ndigits)) # 1))%Qc.
  intros y. exists (round_half_even y).
  destruct (round_half_even_near y) as (H1 & H2 & H3).
  split; [exact H1|]. split; [exact H2|]. split; [exact H3|]. exact eq_refl.
Qed.

(** *** The per-block dictionary on doubles *)

Lemma norm_map_cons_f64 ind inds (m : gmap string float) :
  norm_map (ind :: inds) m
  = norm_map inds (<[Indicator.id ind := normalized ind]> m).
Proof. reflexivity. Qed.

Lemma norm_map_lookup_fresh_f64 inds : ∀ (m : gmap string float) k,
  k ∉ Indicator.id <$> inds → norm_map inds m !! k = m !! k.
Proof.
  induction inds as [|ind inds IH]; intros m k Hk; [done|].
  rewrite fmap_cons, not_elem_of_cons in Hk. destruct Hk as [Hne Hk].
  rewrite norm_map_cons_f64, IH by done. by rewrite lookup_insert_ne.
Qed.

Lemma norm_map_lookup_last_f64 pre ind post (m : gmap string float) :
  Indicator.id ind ∉ Indicator.id <$> post →
  norm_map (pre ++ ind :: post) m !! Indicator.id ind
  = Some (normalized ind).
Proof.
  intros Hfresh. unfold norm_map. rewrite foldl_app. cbn [foldl].
  fold (norm_map post
          (<[Indicator.id ind := normalized ind]>
             (foldl (λ m ind, <[Indicator.id ind := normalized ind]> m) m pre))).
  rewrite norm_map_lookup_fresh_f64 by done. by rewrite lookup_insert_eq.
Qed.

Lemma Forall2_normalize_f64 inds :
  Forall (λ ind, normalize ind = Ok (normalized ind)) inds →
  Forall2 (λ ind z, normalize ind = Ok z) inds (normalized <$> inds).
Proof. induction 1; constructor; auto. Qed.

Lemma Forall2_normalize_inv_f64 inds zs :
  Forall2 (λ ind z, normalize ind = Ok z) inds zs → zs = normalized <$> inds.
Proof.
  induction 1 as [|ind z inds zs Hz _ IH]; [done|].
  apply normalize_inv in Hz. by rewrite Hz, IH.
Qed.

Lemma block_sum_zip inds :
  block_sum inds
  = fsum (zip_with mul (normalized <$> inds) (Indicator.weight <$> inds)).
Proof.
  unfold block_sum. f_equal.
  induction inds as [|ind inds IH]; [done|].
  rewrite !fmap_cons. cbn [zip_with]. by rewrite IH.
Qed.

Lemma members_normalize_Ok req res code :
  evaluate req = Ok res → code ∈ block_codes →
  Forall (λ ind, normalize ind = Ok (normalized ind))
    (members code (EvaluationRequest.indicators req)).
Proof.
  intros Hev Hcode.
  apply evaluate_Ok_inv_f64 in Hev as (_ & _ & Ha & _).
  unfold grouped in Ha.
  apply aggregate_cons_inv in Ha as [HR Ha].
  apply aggregate_cons_inv in Ha as [HP Ha].
  apply aggregate_cons_inv in Ha as [HO Ha].
  apply aggregate_cons_inv in Ha as [HI _].
  unfold block_codes in Hcode. rewrite !elem_of_cons, elem_of_nil in Hcode.
  by destruct Hcode as [->|[->|[->|[->|[]]]]].
Qed.

End Doubles.

(** ** Theorems on doubles *)

Section DoublesClaims.
Import F64 F64Forms F64Samples.

(** Decide a closed statement about doubles by evaluation. *)
Ltac run_f64 := vm_compute; repeat split; try reflexivity; try discriminate.

(** C1, counterexample.  On [small_indices] the emitted block values are
    0.001, 0, 0, 0, which compose to 0.00025 and round to 0, while
    [evaluate] returns 0.001. *)
Lemma total_not_from_emitted_f64 :
  ¬ (∀ req res, evaluate req = Ok res → total_from_emitted req res).
Proof.
  intros Hclaim.
  destruct (evaluate small_indices) as [res|e] eqn:E; vm_compute in E;
    [|discriminate].
  specialize (Hclaim small_indices res). injection E as <-.
  specialize (Hclaim ltac:(by vm_compute)). vm_compute in Hclaim.
  discriminate.
Qed.

(** C1, as the code has it.  The overall index returned by [evaluate] is
    the sum over R, P, O, I of the block weight times the block's index
    as kept in [block_values] (the weighted mean in double arithmetic,
    before it is rounded for emission); that sum is rounded to 3 decimal
    places and is not clamped. *)
Theorem total_index_from_unrounded_f64 (req : EvaluationRequest.t)
    (res : EvaluationResult.t) :
  evaluate req = Ok res →
  let bw := EvaluationRequest.block_weights req in
  let raw :=
    add (add (add (mul (BlockWeights.alpha_R bw) (index_of req "R"))
                  (mul (BlockWeights.alpha_P bw) (index_of req "P")))
             (mul (BlockWeights.alpha_O bw) (index_of req "O")))
        (mul (BlockWeights.alpha_I bw) (index_of req "I")) in
  (∃ block_groups block_indices,
      group_indicators (EvaluationRequest.indicators req)
        [("R", []); ("P", []); ("O", []); ("I", [])] = Ok block_groups
      ∧ aggregate block_groups [] []
        = Ok (block_indices,
              [("R", index_of req "R"); ("P", index_of req "P");
               ("O", index_of req "O"); ("I", index_of req "I")]))
  ∧ EvaluationResult.total_index res = py_round raw 3
  ∧ rounds_to 3 raw (EvaluationResult.total_index res).
Proof.
  intros Hev bw raw.
  apply evaluate_Ok_inv_f64 in Hev as (_ & Hg & Ha & w & s & _ & ->).
  split; [eauto|]. split; [reflexivity|]. apply py_round_rounds_to.
Qed.

Lemma total_index_from_unrounded_f64_witness :
  ∃ res, evaluate heavy_weight = Ok res
    ∧ EvaluationResult.total_index res = of_Z 3.
Proof.
  destruct (evaluate heavy_weight) as [res|e] eqn:E;
    [|vm_compute in E; discriminate].
  exists res. split; [reflexivity|].
  destruct (total_index_from_unrounded_f64 heavy_weight res E)
    as (_ & -> & _).
  by vm_compute.
Defined.

(** C6, counterexample.  On [close_blocks] the result carries 0.333 for
    both R and P, the least of the four values, and names P the weakest
    block, not R. *)
Lemma weakest_not_first_among_emitted :
  ¬ (∀ req res, evaluate req = Ok res → weakest_first_among_emitted res).
Proof.
  intros Hclaim.
  destruct (evaluate close_blocks) as [res|e] eqn:E; vm_compute in E;
    [|discriminate].
  specialize (Hclaim close_blocks res). injection E as <-.
  specialize (Hclaim ltac:(by vm_compute) "P" eq_refl).
  destruct Hclaim as (pre & post & Hl & Hpre & _).
  destruct pre as [|c pre]; [discriminate|].
  injection Hl as <- Hl. apply Forall_cons in Hpre as [Hlt _].
  vm_compute in Hlt. discriminate.
Qed.

(** C6, as the code has it.  In every result of [evaluate] whose four
    block indices are numbers (none is NaN), [weakest_block] is the first
    block in the order R, P, O, I whose index as kept in [block_values]
    (the weighted mean in double arithmetic, before rounding) is the
    least of the four, and [strongest_block] the first whose index is the
    greatest; among tied blocks the earliest in that order is taken. *)
Theorem extremal_blocks_first_in_order_f64 (req : EvaluationRequest.t)
    (res : EvaluationResult.t) :
  evaluate req = Ok res →
  (∀ code, code ∈ ["R"; "P"; "O"; "I"] → is_nan (index_of req code) = false) →
  (∃ block_groups block_indices,
      group_indicators (EvaluationRequest.indicators req)
        [("R", []); ("P", []); ("O", []); ("I", [])] = Ok block_groups
      ∧ aggregate block_groups [] []
        = Ok (block_indices,
              [("R", index_of req "R"); ("P", index_of req "P");
               ("O", index_of req "O"); ("I", index_of req "I")]))
  ∧ ∃ w s,
      EvaluationResult.weakest_block res = Some w
      ∧ EvaluationResult.strongest_block res = Some s
      ∧ first_min (index_of req) ["R"; "P"; "O"; "I"] w
      ∧ first_max (index_of req) ["R"; "P"; "O"; "I"] s.
Proof.
  intros Hev Hnan.
  apply evaluate_Ok_inv_f64 in Hev as (_ & Hg & Ha & w & s & He & ->).
  split; [eauto|]. exists w, s. split; [done|]. split; [done|].
  assert (Hkey : ∀ x, x ∈ ["R"] ++ ["P"; "O"; "I"] →
            od_get (block_values_of req) x = Some (index_of req x)
            ∧ is_nan (index_of req x) = false).
  { intros x Hx. split; [by apply od_get_block_values_f64|by apply Hnan]. }
  assert (HR : is_nan (index_of req "R") = false)
    by (apply Hnan; by left).
  destruct (py_min_from_first_f64 _ _ _ ["R"] "R" Hkey) as (w' & Hw & Hmin).
  { exists [], []. by repeat split. }
  destruct (py_max_from_first_f64 _ _ _ ["R"] "R" Hkey) as (s' & Hs & Hmax).
  { exists [], []. by repeat split. }
  revert He. unfold extremal_blocks, block_values_of at 1.
  change (od_keys (block_values_of req)) with ("R" :: ["P"; "O"; "I"]).
  cbn [py_min py_max]. rewrite Hw, Hs. cbn [mbind result_bind].
  by intros [= <- <-].
Qed.

Lemma extremal_blocks_first_in_order_f64_witness :
  ∃ res w s, evaluate tied_blocks = Ok res
    ∧ EvaluationResult.weakest_block res = Some w
    ∧ EvaluationResult.strongest_block res = Some s
    ∧ first_min (index_of tied_blocks) ["R"; "P"; "O"; "I"] w
    ∧ first_max (index_of tied_blocks) ["R"; "P"; "O"; "I"] s.
Proof.
  destruct (evaluate tied_blocks) as [res|e] eqn:E;
    [|vm_compute in E; discriminate].
  destruct (extremal_blocks_first_in_order_f64 tied_blocks res E)
    as (_ & w & s & Hw & Hs & Hmin & Hmax).
  - intros code. rewrite !elem_of_cons, elem_of_nil.
    intros [->|[->|[->|[->|[]]]]]; by vm_compute.
  - exists res, w, s. split; [reflexivity|]. split; [exact Hw|].
    split; [exact Hs|]. split; [exact Hmin|exact Hmax].
Defined.

(** On [tied_blocks] the ties go to R and to O. *)
Lemma tied_blocks_result_f64 :
  ∃ res, evaluate tied_blocks = Ok res
    ∧ index_of tied_blocks <$> ["R"; "P"; "O"; "I"]
      = [dec 5 10; dec 5 10; dec 9 10; dec 9 10]
    ∧ EvaluationResult.weakest_block res = Some "R"
    ∧ EvaluationResult.strongest_block res = Some "O".
Proof.
  destruct (evaluate tied_blocks) as [res|e] eqn:E; vm_compute in E;
    [|discriminate].
  injection E as <-. eexists. split; [reflexivity|]. by vm_compute.
Qed.

End DoublesClaims.

Section DoublesClaims2.
Import F64 F64Forms F64Samples.

(** C2, counterexample.  In [shared_id] two indicators of block R carry
    the identifier "a"; the mapping sends "a" to 0.8, the normalized
    value of the second, not to 0.2, that of the first. *)
Lemma mapping_not_each_indicator :
  ¬ (∀ req res, evaluate req = Ok res → mapping_sends_each req res).
Proof.
  intros Hclaim.
  destruct (evaluate shared_id) as [res|e] eqn:E; vm_compute in E;
    [|discriminate].
  specialize (Hclaim shared_id res). injection E as <-.
  specialize (Hclaim ltac:(by vm_compute)).
  specialize (Hclaim _ shared_id_first (normalized shared_id_first)
                (list_elem_of_here _ _) (list_elem_of_here _ _) eq_refl
                ltac:(by vm_compute)).
  vm_compute in Hclaim. discriminate.
Qed.

(** C2, as the code has it.  For each block R, P, O, I of a result: with
    no indicators the value is 0.0 and the mapping empty; with indicators
    of normalized values z_k and weights w_k, summed from 0.0 in request
    order, the value is Σ(z_k * w_k) / Σ(w_k) rounded to 3 decimal places
    when the weight sum is positive and 0.0 when the weight sum is zero;
    the mapping sends an identifier to the normalized value of the last
    indicator of the block that carries it, and holds no other key. *)
Theorem category_index_reported_f64 (req : EvaluationRequest.t)
    (res : EvaluationResult.t) :
  evaluate req = Ok res →
  ∃ bR bP bO bI,
    EvaluationResult.blocks res = [bR; bP; bO; bI]
    ∧ ∀ code b, (code, b) ∈ [("R", bR); ("P", bP); ("O", bO); ("I", bI)] →
        let inds := members code (EvaluationRequest.indicators req) in
        let ws := Indicator.weight <$> inds in
        BlockIndex.block b = code
        ∧ ∃ zs, Forall2 (λ ind z, normalize ind = Ok z) inds zs
          ∧ let mean := SFdiv prec emax (fsum (zip_with mul zs ws)) (fsum ws) in
            (inds = [] →
             BlockIndex.value b = zero ∧ BlockIndex.indicators b = ∅)
            ∧ (ltb zero (fsum ws) = true →
               BlockIndex.value b = py_round mean 3
               ∧ rounds_to 3 mean (BlockIndex.value b))
            ∧ (inds ≠ [] → is_zero (fsum ws) = true →
               BlockIndex.value b = zero)
            ∧ (∀ pre ind post,
                 inds = pre ++ ind :: post →
                 Indicator.id ind ∉ Indicator.id <$> post →
                 BlockIndex.indicators b !! Indicator.id ind
                 = Some (normalized ind)
                 ∧ normalize ind = Ok (normalized ind))
            ∧ (∀ key, key ∉ Indicator.id <$> inds →
                 BlockIndex.indicators b !! key = None).
Proof.
  intros Hev.
  pose proof (λ code, members_normalize_Ok req res code Hev) as Hnorm.
  apply evaluate_Ok_inv_f64 in Hev as (_ & _ & _ & w & s & _ & ->).
  eexists _, _, _, _. split; [reflexivity|].
  intros code b Hin. cbv zeta.
  assert (Hcode : code ∈ block_codes
            ∧ b = block_entry code
                    (members code (EvaluationRequest.indicators req))).
  { rewrite !elem_of_cons, elem_of_nil in Hin. unfold block_codes.
    rewrite !elem_of_cons.
    destruct Hin as [E|[E|[E|[E|[]]]]]; injection E as -> ->;
      (split; [tauto|reflexivity]). }
  destruct Hcode as [Hcode ->]. specialize (Hnorm code Hcode).
  revert Hnorm.
  generalize (members code (EvaluationRequest.indicators req)).
  intros inds Hnorm. split; [by destruct inds|].
  exists (normalized <$> inds). split; [by apply Forall2_normalize_f64|].
  rewrite <-block_sum_zip.
  change (fsum (Indicator.weight <$> inds)) with (weight_sum inds).
  destruct inds as [|ind0 inds0].
  { unfold block_entry. cbn [BlockIndex.value BlockIndex.indicators].
    split; [done|]. split; [intros [=]|]. split; [done|].
    split; [intros [|? ?] ? ? [=]|intros; apply lookup_empty]. }
  unfold block_entry, category_index.
  cbn [BlockIndex.value BlockIndex.indicators].
  split; [done|]. split; [|split; [|split]].
  - intros Hpos. rewrite Hpos.
    split; [reflexivity|apply py_round_rounds_to].
  - intros _ Hz.
    assert (ltb zero (weight_sum (ind0 :: inds0)) = false) as ->
      by (by destruct (weight_sum (ind0 :: inds0)) as [[]|[]| |[] ? ?]).
    reflexivity.
  - intros pre ind post E Hfresh. rewrite E.
    split; [by apply norm_map_lookup_last_f64|].
    rewrite E in Hnorm. apply Forall_app in Hnorm as [_ Hnorm].
    by apply Forall_cons in Hnorm as [? _].
  - intros key Hkey. by rewrite norm_map_lookup_fresh_f64.
Qed.

Lemma category_index_reported_f64_witness :
  ∃ res bR bP bO bI,
    evaluate shared_id = Ok res
    ∧ EvaluationResult.blocks res = [bR; bP; bO; bI]
    ∧ BlockIndex.block bR = "R"
    ∧ BlockIndex.value bR = dec 5 10
    ∧ BlockIndex.indicators bR !! "a" = Some (dec 8 10).
Proof.
  destruct (evaluate shared_id) as [res|e] eqn:E;
    [|vm_compute in E; discriminate].
  destruct (category_index_reported_f64 shared_id res E)
    as (bR & bP & bO & bI & Hb & H).
  destruct (H "R" bR (list_elem_of_here _ _))
    as (Hcode & zs & Hzs & _ & Hpos & _ & Hmap & _).
  exists res, bR, bP, bO, bI. split; [reflexivity|]. split; [exact Hb|].
  split; [exact Hcode|].
  apply Forall2_normalize_inv_f64 in Hzs. subst zs. split.
  - destruct Hpos as [-> _]; by vm_compute.
  - destruct (Hmap [shared_id_first] (benefit "a" "R" 80 0 100 1) [])
      as [Hl _]; [reflexivity|by apply not_elem_of_nil|].
    refine (eq_trans Hl _). by vm_compute.
Defined.

End DoublesClaims2.

Section DoublesClaims3.
Import F64 F64Forms F64Samples.

Lemma clamp01_range (z : float) :
  leb zero (clamp01 z) = true ∧ leb (clamp01 z) one = true.
Proof.
  unfold clamp01, py_max2, py_min2.
  destruct (ltb z one) eqn:H1.
  - destruct (ltb zero z) eqn:H0; [|done]. split; by apply ltb_leb.
  - done.
Qed.

Lemma clamp01_nan (z : float) : is_nan z = true → clamp01 z = one.
Proof. by destruct z. Qed.

Lemma ltb_not_eqb (x y : float) : ltb x y = true → eqb y x = false.
Proof.
  unfold eqb, SFeqb, ltb, SFltb, SFcompare.
  destruct x as [[]|[]| |[] m1 e1], y as [[]|[]| |[] m2 e2]; try done;
    destruct (Z.compare_spec e1 e2), (Z.compare_spec e2 e1); try done;
    try lia;
    change (Pos.compare_cont Eq m1 m2) with (Pos.compare m1 m2);
    change (Pos.compare_cont Eq m2 m1) with (Pos.compare m2 m1);
    destruct (Pos.compare_spec m1 m2), (Pos.compare_spec m2 m1);
    try done; lia.
Qed.

(** [x - x] is +0.0, or NaN when [x] is not finite. *)
Lemma sub_diag (x : float) : sub x x = zero ∨ sub x x = S754_nan.
Proof.
  destruct x as [[]|[]| |s m e]; auto.
  left. unfold sub, SFsub. by rewrite Z.sub_diag.
Qed.

(** A zero or NaN numerator over a divisor that is not zero. *)
Lemma div_zero_or_nan (n d : float) :
  n = zero ∨ n = S754_nan → is_zero d = false →
  is_zero (SFdiv prec emax n d) = true ∨ SFdiv prec emax n d = S754_nan.
Proof. intros [->| ->] Hd; destruct d as [[]|[]| |[] ? ?]; auto. Qed.

Lemma cost_of_zero_or_nan (z : float) :
  is_zero z = true ∨ z = S754_nan → clamp01 (sub one z) = one.
Proof. intros [Hz| ->]; [by destruct z as [[]|[]| |[] ? ?]|done]. Qed.

Lemma normalize_proper ind :
  ltb (Indicator.min_value ind) (Indicator.max_value ind) = true →
  is_zero (sub (Indicator.max_value ind) (Indicator.min_value ind)) = false →
  normalize ind
  = Ok (clamp01
          (let z := SFdiv prec emax
                      (sub (Indicator.value ind) (Indicator.min_value ind))
                      (sub (Indicator.max_value ind) (Indicator.min_value ind))
           in if Indicator.is_benefit ind then z else sub one z)).
Proof.
  intros Hlt Hd. unfold normalize, float_div.
  by rewrite (ltb_not_eqb _ _ Hlt), Hd.
Qed.

(** C3, counterexample.  [wide_cost] is a cost indicator with
    [min_value < max_value] at [value = max_value]; the difference of its
    bounds overflows, the ratio is NaN, and [normalize] returns 1.0. *)
Lemma cost_at_max_not_zero :
  ¬ (∀ ind,
       ltb (Indicator.min_value ind) (Indicator.max_value ind) = true →
       Indicator.is_benefit ind = false →
       Indicator.value ind = Indicator.max_value ind →
       normalize ind = Ok zero).
Proof.
  intros Hclaim. specialize (Hclaim wide_cost eq_refl eq_refl eq_refl).
  vm_compute in Hclaim. discriminate.
Qed.

(** C3, as the code has it.  For an indicator with [max_value >
    min_value] (the difference of the bounds not being zero), [normalize]
    returns max(0.0, min(1.0, z)) on doubles, z = (value - min_value) /
    (max_value - min_value), replaced by 1 - z for a cost indicator.  The
    result lies in [0.0, 1.0] wherever the raw value lies, and is 1.0 when
    z is NaN.  A cost indicator at value = min_value normalizes to 1.0; at
    value = max_value it normalizes to 0.0 when (max_value - min_value)
    divided by itself gives 1.0. *)
Theorem normalize_clamped_ratio_f64 (ind : Indicator.t) :
  ltb (Indicator.min_value ind) (Indicator.max_value ind) = true →
  is_zero (sub (Indicator.max_value ind) (Indicator.min_value ind)) = false →
  let z := SFdiv prec emax
             (sub (Indicator.value ind) (Indicator.min_value ind))
             (sub (Indicator.max_value ind) (Indicator.min_value ind)) in
  let z' := if Indicator.is_benefit ind then z else sub one z in
  normalize ind = Ok (py_max2 zero (py_min2 one z'))
  ∧ (∃ r, normalize ind = Ok r ∧ leb zero r = true ∧ leb r one = true)
  ∧ (is_nan z' = true → normalize ind = Ok one)
  ∧ (Indicator.is_benefit ind = false →
     Indicator.value ind = Indicator.min_value ind → normalize ind = Ok one)
  ∧ (Indicator.is_benefit ind = false →
     Indicator.value ind = Indicator.max_value ind →
     SFdiv prec emax
       (sub (Indicator.max_value ind) (Indicator.min_value ind))
       (sub (Indicator.max_value ind) (Indicator.min_value ind)) = one →
     normalize ind = Ok zero).
Proof.
  intros Hlt Hd z z'. rewrite (normalize_proper ind Hlt Hd).
  cbv zeta. fold z. fold z'. split; [reflexivity|]. split; [|split; [|split]].
  - eexists. split; [reflexivity|]. apply clamp01_range.
  - intros Hnan. f_equal. by apply clamp01_nan.
  - intros Hcost Hv. f_equal. subst z'. rewrite Hcost.
    apply cost_of_zero_or_nan. subst z. rewrite Hv.
    apply div_zero_or_nan; [apply sub_diag|exact Hd].
  - intros Hcost Hv Hone. f_equal. subst z' z. rewrite Hcost, Hv, Hone.
    reflexivity.
Qed.

Lemma normalize_clamped_ratio_f64_witness : normalize plain_cost = Ok zero.
Proof.
  apply (normalize_clamped_ratio_f64 plain_cost); reflexivity.
Defined.

(** The counterexample of C3 in full: the ratio of [wide_cost] is NaN. *)
Lemma wide_cost_result :
  sub (Indicator.max_value wide_cost) (Indicator.min_value wide_cost)
  = S754_infinity false
  ∧ normalize wide_cost = Ok one.
Proof. by vm_compute. Qed.

End DoublesClaims3.
